(** * Sortify audio fingerprinting core: a shallow embedding in Rocq

    The three stages of [src/cpp/src]:
    - [generateSpectrogram] (spectrogram.cpp),
    - [extractPeaks] (peak_extraction.cpp),
    - [createFingerprint] (fingerprint.cpp, the [Result]-returning version,
      and the unchecked version that precedes it),
    and the hash matching of tests/audio_comparison_test.cpp.

    Numbers.  The C++ code computes in IEEE-754 single ([float]) and, where
    a double literal or [M_PI] is involved, double precision.  Values are
    rationals [Q] here and every rounded operation goes through
    [round_fmt] (round to nearest, ties to even) at the precision the C++
    expression has.  Overflow to infinity is not modelled: no value of the
    pipeline comes near [FLT_MAX].  [unsigned int] values are [Z] with
    their wrap-around modulo [2^32] written out; [size_t] is 64 bits. *)

From Stdlib Require Import ZArith QArith Qround Qabs Qpower Lqa Lia List String Ascii Sorted.
From stdpp Require Import base gmap list.
Import ListNotations.

Open Scope Z_scope.

(* ------------------------------------------------------------------ *)
(** ** IEEE-754 binary formats, round to nearest even *)

Module IEEE.

(** [2^k] as a rational, for any integer [k]. *)
Definition pow2 (k : Z) : Q := Qpower (2 # 1) k.

(** The binade of a positive rational: the [e] with [2^e <= x < 2^(e+1)]. *)
Definition binade (x : Q) : Z :=
  let e0 := (Z.log2 (Qnum x) - Z.log2 (Zpos (Qden x)))%Z in
  if Qle_bool (pow2 e0) x then e0 else (e0 - 1)%Z.

(** Round a rational to the nearest integer, ties to the even one. *)
Definition rne (s : Q) : Z :=
  let f := Qfloor s in
  let r := (s - inject_Z f)%Q in
  if Qle_bool r (1 # 2) then
    if Qeq_bool r (1 # 2) then (if Z.even f then f else f + 1) else f
  else f + 1.

(** Exponent of the unit in the last place for a positive [x] in a format
    with [prec] significand bits and smallest ulp exponent [emin]. *)
Definition ulp_exp (prec emin : Z) (x : Q) : Z :=
  Z.max (binade x - (prec - 1)) emin.

(** Rounding of a non-negative rational. *)
Definition round_pos (prec emin : Z) (x : Q) : Q :=
  if Qle_bool x 0 then 0%Q
  else let k := ulp_exp prec emin x in
       (inject_Z (rne (x / pow2 k)) * pow2 k)%Q.

(** Rounding of any rational (the format is symmetric). *)
Definition round_fmt (prec emin : Z) (x : Q) : Q :=
  if Qle_bool 0 x then round_pos prec emin x
  else (- round_pos prec emin (- x))%Q.

(** IEEE single ([float]) and double. *)
Definition fl32 : Q -> Q := round_fmt 24 (-149).
Definition fl64 : Q -> Q := round_fmt 53 (-1074).

(** Conversion of a finite floating value to an integer type truncates
    toward zero ([static_cast<unsigned int>] of a float or double). *)
Definition trunc (x : Q) : Z :=
  if Qle_bool 0 x then Qfloor x else (- Qfloor (- x))%Z.

(** The strict comparison [a < b] of two floating values. *)
Definition Qltb (a b : Q) : bool := negb (Qle_bool b a).

End IEEE.

Import IEEE.

(* ------------------------------------------------------------------ *)
(** ** [Result<T>] (result.hpp) and integer types *)

Inductive Result (A : Type) : Type :=
| Success (value : A)
| Failure (errorMessage : string).
Arguments Success {A} value.
Arguments Failure {A} errorMessage.

Definition isSuccess {A} (r : Result A) : bool :=
  match r with Success _ => true | Failure _ => false end.

(** [unsigned int] (32 bits) and [size_t] (64 bits) wrap-around. *)
Definition u32 (z : Z) : Z := z mod 2 ^ 32.

(** [std::to_string] of an integer. *)
Fixpoint digits (fuel : nat) (n : Z) (acc : string) : string :=
  match fuel with
  | O => acc
  | S fuel' =>
    let acc' := String (ascii_of_nat (48 + Z.to_nat (n mod 10))) acc in
    if n <? 10 then acc' else digits fuel' (n / 10) acc'
  end.

Definition to_string (z : Z) : string :=
  if z <? 0 then String.append "-" (digits 64 (- z) "") else digits 64 z "".
Definition u64 (z : Z) : Z := z mod 2 ^ 64.

(** [static_cast<unsigned int>] of a finite float: defined only when the
    truncated value is representable; [None] is undefined behaviour. *)
Definition to_u32 (x : Q) : option Z :=
  let z := trunc x in
  if (0 <=? z) && (z <? 2 ^ 32) then Some z else None.

(* ------------------------------------------------------------------ *)
(** ** Spectrogram builder (spectrogram.cpp) *)

Module Spectrogram.

Definition Spectrogram := list (list Q).

(** Outcome of the FFTW calls inside [fft]: allocation of the buffers,
    creation of the plan, and the transform itself. *)
Inductive FftOutcome :=
| FftAllocFailed
| FftPlanFailed
| FftDone (out : list (Q * Q)).

(** The values [generateSpectrogram] fixes before its window loop. *)
Record Shape := mkShape {
  stepSize : Z;
  numWindows : Z;
  minBin : Z;
  maxBin : Z;
  numBins : Z
}.

(** Lines 111-164: validation, step size, window count and bin range.
    [numSamples] is [samples.size()].  [None] is undefined behaviour (a
    non-finite or out-of-range float converted to [unsigned int], which
    happens when [sampleRate / windowSize] is 0). *)
Definition spectrogramShape (numSamples sampleRate windowSize : Z)
    (overlap minFreq maxFreq : Q) : option (Result Shape) :=
  if numSamples =? 0 then Some (Failure "Empty audio samples provided") else
  if sampleRate =? 0 then Some (Failure "Sample rate cannot be zero") else
  if windowSize =? 0 then Some (Failure "Window size cannot be zero") else
  if negb (Qle_bool 0 overlap) || Qle_bool 1 overlap then
    Some (Failure "Overlap must be between 0.0 and 1.0 (exclusive)") else
  if negb (Qle_bool 0 minFreq) then
    Some (Failure "Minimum frequency cannot be negative") else
  if Qle_bool maxFreq minFreq then
    Some (Failure "Maximum frequency must be greater than minimum frequency") else
  match to_u32 (fl32 (fl32 (inject_Z windowSize) * fl32 (1 - overlap))) with
  | None => None
  | Some step0 =>
    let step := if step0 =? 0 then 1 else step0 in
    let nw := u32 (u64 (u64 (numSamples - windowSize) / step + 1)) in
    if nw =? 0 then Some (Failure "Sample size too small for given window size") else
    let binSize := sampleRate / windowSize in
    if binSize =? 0 then None else
    match to_u32 (inject_Z (Qceiling (fl32 (minFreq / fl32 (inject_Z binSize))))),
          to_u32 (inject_Z (Qfloor (fl32 (maxFreq / fl32 (inject_Z binSize))))) with
    | Some lo0, Some hi0 =>
      let lo := Z.max lo0 0 in
      let hi := Z.min hi0 (windowSize / 2) in
      if hi <=? lo then
        Some (Failure "Invalid frequency range for given window size and sample rate")
      else Some (Success (mkShape step nw lo hi (hi - lo + 1)))
    | _, _ => None
    end
  end.

(** [M_PI] as the double the compiler makes of its decimal literal. *)
Definition M_PI : Q :=
  fl64 (314159265358979323846 # Z.to_pos (10 ^ 20)).

Section Backend.

(** External numeric code: libm's [std::cos] on doubles, the FFTW
    allocation, planning and forward transform, and [std::abs] of a
    [std::complex<float>]. *)
Variable cos_libm : Q -> Q.
Variable fftw : list (Q * Q) -> FftOutcome.
Variable abs_complex : Q * Q -> Q.

(** [createHammingWindow], lines 22-29:
    [0.54f - 0.46f * std::cos(2.0f * M_PI * i / (size - 1))], evaluated
    in double (because of [M_PI]) and stored as float. *)
Definition hammingCoeff (size i : Z) : Q :=
  let arg := fl64 (fl64 (fl64 (2 * M_PI) * inject_Z i) / inject_Z (u32 (size - 1))) in
  fl32 (fl64 (fl32 (54 # 100) - fl64 (fl32 (46 # 100) * cos_libm arg))).

Definition createHammingWindow (size : Z) : list Q :=
  map (fun i => hammingCoeff size (Z.of_nat i)) (seq 0 (Z.to_nat size)).

(** [fft], lines 40-89: arrays of at most one element are left alone. *)
Definition fft (x : list (Q * Q)) : FftOutcome :=
  if (length x <=? 1)%nat then FftDone x else fftw x.

(** Lines 178-187: the tapered frame of window [windowIdx], zero-padded
    past the end of the input ([sampleIdx] is an [unsigned int]). *)
Definition windowFrame (samples : list Q) (hw : list Q)
    (windowSize step windowIdx : Z) : list (Q * Q) :=
  map (fun i =>
         let sampleIdx := u32 (windowIdx * step + Z.of_nat i) in
         if sampleIdx <? Z.of_nat (length samples) then
           (fl32 (nth (Z.to_nat sampleIdx) samples 0%Q * nth i hw 0%Q), 0%Q)
         else (0%Q, 0%Q))
      (seq 0 (Z.to_nat windowSize)).

(** Lines 195-206: magnitudes of the kept bins of one transformed frame. *)
Definition storeBins (windowSize lo nb windowIdx : Z) (out : list (Q * Q))
    (sp : Spectrogram) : Spectrogram :=
  fold_left (fun sp binIdx =>
      let sourceBinIdx := lo + Z.of_nat binIdx in
      if sourceBinIdx <? windowSize / 2 then
        alter (fun row => <[Z.to_nat windowIdx := abs_complex
                  (nth (Z.to_nat sourceBinIdx) out (0%Q, 0%Q))]> row) binIdx sp
      else sp)
    (seq 0 (Z.to_nat nb)) sp.

(** Lines 176-207: the window loop, [fuel] windows from [windowIdx] on. *)
Fixpoint processWindows (samples hw : list Q) (windowSize : Z) (sh : Shape)
    (fuel : nat) (windowIdx : Z) (sp : Spectrogram) : Result Spectrogram :=
  match fuel with
  | O => Success sp
  | S fuel' =>
    match fft (windowFrame samples hw windowSize (stepSize sh) windowIdx) with
    | FftAllocFailed => Failure "FFT error: Memory allocation failed for FFT"
    | FftPlanFailed => Failure "FFT error: Failed to create FFT plan"
    | FftDone out =>
      processWindows samples hw windowSize sh fuel' (windowIdx + 1)
        (storeBins windowSize (minBin sh) (numBins sh) windowIdx out sp)
    end
  end.

(** [generateSpectrogram], lines 103-218. *)
Definition generateSpectrogram (samples : list Q) (sampleRate windowSize : Z)
    (overlap minFreq maxFreq : Q) : option (Result Spectrogram) :=
  match spectrogramShape (Z.of_nat (length samples)) sampleRate windowSize
          overlap minFreq maxFreq with
  | None => None
  | Some (Failure e) => Some (Failure e)
  | Some (Success sh) =>
    let hw := createHammingWindow windowSize in
    let sp0 := repeat (repeat 0%Q (Z.to_nat (numWindows sh))) (Z.to_nat (numBins sh)) in
    match processWindows samples hw windowSize sh (Z.to_nat (numWindows sh)) 0 sp0 with
    | Failure e => Some (Failure e)
    | Success sp =>
      match sp with
      | [] | [] :: _ => Some (Failure "Failed to generate spectrogram data")
      | _ => Some (Success sp)
      end
    end
  end.

End Backend.

End Spectrogram.

(* ------------------------------------------------------------------ *)
(** ** Peak extractor (peak_extraction.cpp) *)

Module Peaks.

(** [struct Peak] (audio_fingerprint.hpp). *)
Record Peak := mkPeak {
  frequency : Q;
  time : Q;
  magnitude : Q
}.

(** [spectrogram[f][t]]. *)
Definition cell (s : list (list Q)) (f t : Z) : Q :=
  nth (Z.to_nat t) (nth (Z.to_nat f) s []) 0%Q.

(** [static_cast<unsigned int>(numFreqBins * c)] for a double literal [c]. *)
Definition scaled (numFreqBins : Z) (c : Q) : Z :=
  trunc (fl64 (inject_Z numFreqBins * fl64 c)).

(** Lines 24-35: the six frequency bands. *)
Definition freqBands (numFreqBins : Z) : list (Z * Z) :=
  [ (0, scaled numFreqBins (1 # 10));
    (scaled numFreqBins (1 # 10), scaled numFreqBins (1 # 4));
    (scaled numFreqBins (1 # 4), scaled numFreqBins (2 # 5));
    (scaled numFreqBins (2 # 5), scaled numFreqBins (3 # 5));
    (scaled numFreqBins (3 # 5), scaled numFreqBins (4 # 5));
    (scaled numFreqBins (4 # 5), numFreqBins) ].

(** Lines 38-50: the first invalid band, if any. *)
Fixpoint validateBands (numFreqBins : Z) (bands : list (Z * Z)) : option string :=
  match bands with
  | [] => None
  | (lo, hi) :: rest =>
    if hi <=? lo then
      Some (String.append "Invalid frequency band: ["
              (String.append (to_string lo)
                 (String.append ", " (String.append (to_string hi) "]"))))
    else if numFreqBins <? hi then
      Some (String.append "Frequency band exceeds spectrogram size: "
              (String.append (to_string hi)
                 (String.append " > " (to_string numFreqBins))))
    else validateBands numFreqBins rest
  end.

(** Lines 64-70: one iteration of the inner loop over bin [f]. *)
Definition bandStep (s : list (list Q)) (t : Z) (acc : Peak * bool) (f : Z)
    : Peak * bool :=
  let '(mp, found) := acc in
  if Qltb (magnitude mp) (cell s f t)
  then (mkPeak (fl32 (inject_Z f)) (time mp) (cell s f t), true)
  else (mp, found).

(** The bins [band.first <= f < min(band.second, numFreqBins)]. *)
Definition bandBins (numFreqBins : Z) (band : Z * Z) : list Z :=
  map (fun k => fst band + Z.of_nat k)
      (seq 0 (Z.to_nat (Z.min (snd band) numFreqBins - fst band))).

(** Lines 60-74: the maximum of one band in column [t]; [None] when no
    bin improves on the initial magnitude 0 ([foundPeak] stays false). *)
Definition bandMax (s : list (list Q)) (numFreqBins t : Z) (band : Z * Z)
    : option Peak :=
  let '(maxPeak, foundPeak) :=
    fold_left (bandStep s t) (bandBins numFreqBins band)
      (mkPeak 0 (fl32 (inject_Z t)) 0, false) in
  if foundPeak then Some maxPeak else None.

(** Lines 56-75: the band-local candidates of column [t], in band order. *)
Definition columnCandidates (s : list (list Q)) (numFreqBins t : Z) : list Peak :=
  omap (bandMax s numFreqBins t) (freqBands numFreqBins).

(** Lines 85-89: [avgMagnitude], summed and divided in float. *)
Definition avgMagnitude (bandPeaks : list Peak) : Q :=
  fl32 (fold_left (fun acc p => fl32 (acc + magnitude p)) bandPeaks 0%Q
        / fl32 (inject_Z (Z.of_nat (length bandPeaks)))).

(** Lines 77-96: the peaks kept from column [t]. *)
Definition columnPeaks (s : list (list Q)) (numFreqBins t : Z) : list Peak :=
  match columnCandidates s numFreqBins t with
  | [] => []
  | bandPeaks =>
    List.filter (fun p => Qltb (avgMagnitude bandPeaks) (magnitude p)) bandPeaks
  end.

(** Lines 55-97: all time windows, in increasing order. *)
Definition collectPeaks (s : list (list Q)) (numFreqBins numTimeWindows : Z)
    : list Peak :=
  fold_left (fun peaks t => peaks ++ columnPeaks s numFreqBins (Z.of_nat t))
    (seq 0 (Z.to_nat numTimeWindows)) [].

(** [extractPeaks], lines 8-106. *)
Definition extractPeaks (s : list (list Q)) : Result (list Peak) :=
  match s with
  | [] | [] :: _ => Failure "Empty spectrogram provided"
  | row0 :: _ =>
    let numFreqBins := u32 (Z.of_nat (length s)) in
    let numTimeWindows := u32 (Z.of_nat (length row0)) in
    match validateBands numFreqBins (freqBands numFreqBins) with
    | Some e => Failure e
    | None =>
      match collectPeaks s numFreqBins numTimeWindows with
      | [] => Failure "No significant peaks found in spectrogram"
      | peaks => Success peaks
      end
    end
  end.

End Peaks.

(* ------------------------------------------------------------------ *)
(** ** Fingerprint hasher (fingerprint.cpp, lines 77-154) *)

Module Fingerprint.

Import Peaks.

(** [struct FingerprintHash] (audio_fingerprint.hpp). *)
Record FingerprintHash := mkFingerprintHash {
  hash : Z;
  anchorTime : Q;
  songId : Z
}.

(** [std::unordered_map<uint32_t, std::vector<FingerprintHash>>]. *)
Abbreviation Fingerprint := (gmap Z (list FingerprintHash)).

(** [static_cast<uint32_t>] of a float; the model takes the truncated
    value modulo [2^32] (out of range the C++ conversion is undefined). *)
Definition castU32 (x : Q) : Z := u32 (trunc x).

(** [timeDelta] and [freqDelta], lines 113 and 118. *)
Definition timeDelta (anchor target : Peak) : Q := fl32 (time target - time anchor).
Definition freqDelta (anchor target : Peak) : Q :=
  Qabs (fl32 (frequency target - frequency anchor)).

(** Lines 129-131: the 32-bit hash of an anchor/target pair. *)
Definition pairHash (anchor target : Peak) : Z :=
  Z.lor (Z.lor (Z.shiftl (Z.land (castU32 (frequency anchor)) 1023) 22)
               (Z.shiftl (Z.land (castU32 (frequency target)) 1023) 12))
        (Z.land (castU32 (fl32 (timeDelta anchor target * 10))) 4095).

(** [fingerprint[hash].push_back(e)]. *)
Definition addHash (fp : Fingerprint) (h : Z) (e : FingerprintHash) : Fingerprint :=
  <[h := default [] (fp !! h) ++ [e]]> fp.

(** Lines 109-143: the forward scan from one anchor over [peaks[j]],
    [j > i]; [numTargets] targets are already paired. *)
Fixpoint scanTargets (sid : Z) (anchor : Peak) (numTargets : nat)
    (targets : list Peak) (fp : Fingerprint) : Fingerprint :=
  match targets with
  | [] => fp
  | target :: rest =>
    if (numTargets <? 5)%nat then
      if Qltb (timeDelta anchor target) (1 # 2) then
        scanTargets sid anchor numTargets rest fp
      else if Qltb 3 (timeDelta anchor target) then fp
      else if Qltb 30 (freqDelta anchor target) then
        scanTargets sid anchor numTargets rest fp
      else
        let h := pairHash anchor target in
        scanTargets sid anchor (S numTargets) rest
          (addHash fp h (mkFingerprintHash h (time anchor) sid))
    else fp
  end.

(** Lines 104-144: every peak in turn is the anchor. *)
Fixpoint pairAll (sid : Z) (peaks : list Peak) (fp : Fingerprint) : Fingerprint :=
  match peaks with
  | [] => fp
  | anchor :: rest => pairAll sid rest (scanTargets sid anchor 0 rest fp)
  end.

(** [createFingerprint], lines 77-154. *)
Definition createFingerprint (peaks : list Peak) (sid : Z) : Result Fingerprint :=
  match peaks with
  | [] => Failure "Empty peaks vector provided"
  | _ =>
    if sid <? 0 then Failure (String.append "Invalid song ID: " (to_string sid)) else
    let fp := pairAll sid peaks ∅ in
    if (size fp =? 0)%nat then Failure "Failed to create any fingerprint hashes"
    else Success fp
  end.

End Fingerprint.

(** The unchecked [createFingerprint] that precedes the [Result] version in
    fingerprint.cpp (lines 9-64).  It runs the same anchor/target loop
    (lines 26-61), has no song-id check, and returns the empty map for
    empty input or when no pair is emitted. *)
Module FingerprintUnchecked.
Import Peaks Fingerprint.

Definition createFingerprint (peaks : list Peak) (songId : Z) : Fingerprint :=
  match peaks with
  | [] => ∅
  | _ => pairAll songId peaks ∅
  end.

End FingerprintUnchecked.

(** Hash matching in tests/audio_comparison_test.cpp (lines 163-170, and the
    same loop at 276-281): count the keys of [a] that [b] also has.  The
    count does not depend on the iteration order of the unordered map. *)
Module ComparisonTest.
Import Fingerprint.

Definition matchCount (a b : Fingerprint) : Z :=
  map_fold (fun h _ acc => match b !! h with Some _ => acc + 1 | None => acc end) 0 a.

End ComparisonTest.

(* ------------------------------------------------------------------ *)
(** ** Readings of the specification compared with the code *)

Module PeaksSpec.
Import Peaks.

(** The arithmetic mean of the candidates' magnitudes, computed exactly. *)
Definition meanExact (ps : list Peak) : Q :=
  (fold_right (fun p acc => magnitude p + acc) 0 ps / inject_Z (Z.of_nat (List.length ps)))%Q.

End PeaksSpec.

Module FingerprintSpec.
Import Peaks Fingerprint.

(** The entry the scan adds for a paired target. *)
Definition emit (sid : Z) (anchor : Peak) (fp : Fingerprint) (target : Peak) : Fingerprint :=
  addHash fp (pairHash anchor target) (mkFingerprintHash (pairHash anchor target) (time anchor) sid).

(** Targets up to (excluding) the first one at or beyond the minimum gap
    whose [timeDelta] exceeds 3.0: where the scan breaks. *)
Fixpoint beforeBreak (anchor : Peak) (targets : list Peak) : list Peak :=
  match targets with
  | [] => []
  | t :: rest =>
    if negb (Qltb (timeDelta anchor t) (1 # 2)) && Qltb 3 (timeDelta anchor t) then []
    else t :: beforeBreak anchor rest
  end.

(** A target in the zone: [0.5 <= timeDelta <= 3.0] and [freqDelta <= 30]. *)
Definition inZone (anchor t : Peak) : bool :=
  negb (Qltb (timeDelta anchor t) (1 # 2)) && negb (Qltb 3 (timeDelta anchor t))
  && negb (Qltb 30 (freqDelta anchor t)).

(** The targets paired with [anchor]: the first five in the zone before
    the break. *)
Definition pairedTargets (anchor : Peak) (targets : list Peak) : list Peak :=
  firstn 5 (List.filter (inZone anchor) (beforeBreak anchor targets)).

(** The same scan as the claim words it: stop at [timeDelta >= 3.0],
    zone [0.5 <= timeDelta < 3.0]. *)
Fixpoint beforeBreak_ge (anchor : Peak) (targets : list Peak) : list Peak :=
  match targets with
  | [] => []
  | t :: rest =>
    if negb (Qltb (timeDelta anchor t) (1 # 2)) && Qle_bool 3 (timeDelta anchor t) then []
    else t :: beforeBreak_ge anchor rest
  end.

Definition inZone_ge (anchor t : Peak) : bool :=
  negb (Qltb (timeDelta anchor t) (1 # 2)) && Qltb (timeDelta anchor t) 3
  && negb (Qltb 30 (freqDelta anchor t)).

Definition pairedTargets_ge (anchor : Peak) (targets : list Peak) : list Peak :=
  firstn 5 (List.filter (inZone_ge anchor) (beforeBreak_ge anchor targets)).

(** [std::round]: halves away from zero. *)
Definition roundHalfAway (x : Q) : Z :=
  if Qle_bool 0 x then Qfloor (x + (1 # 2)) else (- Qfloor (- x + (1 # 2)))%Z.

(** Consistency of a fingerprint map built from [peaks] for song [sid]. *)
Definition consistent (sid : Z) (peaks : list Peak) (fp : Fingerprint) : Prop :=
  forall h es, fp !! h = Some es ->
    es <> [] /\
    forall e, In e es ->
      hash e = h /\ songId e = sid /\
      exists a t, In a peaks /\ In t peaks /\ h = pairHash a t /\ anchorTime e = time a.

End FingerprintSpec.

Module FingerprintMeasures.
Import Peaks Fingerprint.

(** The number of entries stored in all buckets. *)
Definition totalEntries (fp : Fingerprint) : nat :=
  map_fold (fun _ es n => (List.length es + n)%nat) 0%nat fp.

(** Every entry of [fp] comes from an anchor that precedes its target in
    [peaks], with the pair inside the target zone the scan tests. *)
Definition zoneOrdered (sid : Z) (peaks : list Peak) (fp : Fingerprint) : Prop :=
  forall h es e, fp !! h = Some es -> In e es ->
    exists a t l1 l2 l3, peaks = l1 ++ a :: l2 ++ t :: l3 /\
      h = pairHash a t /\ anchorTime e = time a /\ songId e = sid /\
      ((1 # 2) <= timeDelta a t <= 3)%Q /\ (freqDelta a t <= 30)%Q.

End FingerprintMeasures.

(* ------------------------------------------------------------------ *)
(** ** Facts about rounding *)

Module RoundingFacts.

Lemma Qle_bool_compat (x y c : Q) : (x == y)%Q -> Qle_bool x c = Qle_bool y c.
Proof.
  intro H. destruct (Qle_bool x c) eqn:E1, (Qle_bool y c) eqn:E2; auto.
  - apply Qle_bool_iff in E1. rewrite H in E1. apply Qle_bool_iff in E1. congruence.
  - apply Qle_bool_iff in E2. rewrite <- H in E2. apply Qle_bool_iff in E2. congruence.
Qed.

Lemma Qle_bool_compat_r (x y c : Q) : (x == y)%Q -> Qle_bool c x = Qle_bool c y.
Proof.
  intro H. destruct (Qle_bool c x) eqn:E1, (Qle_bool c y) eqn:E2; auto.
  - apply Qle_bool_iff in E1. rewrite H in E1. apply Qle_bool_iff in E1. congruence.
  - apply Qle_bool_iff in E2. rewrite <- H in E2. apply Qle_bool_iff in E2. congruence.
Qed.

Lemma Qeq_bool_compat (x y c : Q) : (x == y)%Q -> Qeq_bool x c = Qeq_bool y c.
Proof.
  intro H. destruct (Qeq_bool x c) eqn:E1, (Qeq_bool y c) eqn:E2; auto.
  - apply Qeq_bool_iff in E1. rewrite H in E1. apply Qeq_bool_iff in E1. congruence.
  - apply Qeq_bool_iff in E2. rewrite <- H in E2. apply Qeq_bool_iff in E2. congruence.
Qed.

Lemma Qle_bool_false (x y : Q) : Qle_bool x y = false -> (y < x)%Q.
Proof.
  intro H. destruct (Qlt_le_dec y x) as [|Hle]; auto.
  apply Qle_bool_iff in Hle. congruence.
Qed.

Lemma pow2_pos k : (0 < pow2 k)%Q.
Proof. apply Qpower_0_lt. reflexivity. Qed.

Lemma pow2_le a b : a <= b -> (pow2 a <= pow2 b)%Q.
Proof. intro H. apply Qpower_le_compat_l; [exact H | discriminate]. Qed.

Lemma pow2_lt a b : a < b -> (pow2 a < pow2 b)%Q.
Proof. intro H. apply Qpower_lt_compat_l; [exact H | reflexivity]. Qed.

Lemma pow2_add a b : (pow2 (a + b) == pow2 a * pow2 b)%Q.
Proof. apply Qpower_plus. discriminate. Qed.

Lemma pow2_Z k : 0 <= k -> (pow2 k == inject_Z (2 ^ k))%Q.
Proof. intro H. symmetry. apply Zpower_Qpower. exact H. Qed.

Lemma Qmake_mul_den p q : ((p # q) * inject_Z (Zpos q) == inject_Z p)%Q.
Proof. unfold Qeq. simpl. lia. Qed.

(** The binade brackets its argument. *)
Lemma binade_spec x : (0 < x)%Q ->
  (pow2 (binade x) <= x)%Q /\ (x < pow2 (binade x + 1))%Q.
Proof.
  destruct x as [p q]. intro Hx. unfold Qlt in Hx. simpl in Hx.
  assert (Hp : 0 < p) by lia.
  pose proof (Z.log2_spec p Hp) as [Hp1 Hp2].
  pose proof (Z.log2_spec (Zpos q) eq_refl) as [Hq1 Hq2].
  pose proof (Z.log2_nonneg p). pose proof (Z.log2_nonneg (Zpos q)).
  set (a := Z.log2 p) in *. set (b := Z.log2 (Zpos q)) in *.
  rewrite <- Z.add_1_r in Hp2, Hq2.
  pose proof (Qmake_mul_den p q) as Hm.
  assert (HqQ : (0 < inject_Z (Zpos q))%Q) by (unfold Qlt; simpl; lia).
  assert (Hup : ((p # q) < pow2 (a - b + 1))%Q).
  { apply (Qmult_lt_r _ _ (inject_Z (Zpos q)) HqQ). rewrite Hm.
    apply Qlt_le_trans with (inject_Z (2 ^ (a + 1))).
    - rewrite <- Zlt_Qlt. exact Hp2.
    - rewrite <- pow2_Z by lia.
      replace (a + 1) with ((a - b + 1) + b) by ring.
      rewrite pow2_add. apply Qmult_le_l; [apply pow2_pos|].
      rewrite pow2_Z by lia. rewrite <- Zle_Qle. exact Hq1. }
  assert (Hlo : (pow2 (a - b - 1) <= (p # q))%Q).
  { apply (Qmult_le_r _ _ (inject_Z (Zpos q)) HqQ). rewrite Hm.
    apply Qle_trans with (pow2 (a - b - 1) * pow2 (b + 1))%Q.
    - apply Qmult_le_l; [apply pow2_pos|].
      rewrite pow2_Z by lia. rewrite <- Zle_Qle. lia.
    - rewrite <- pow2_add. replace (a - b - 1 + (b + 1)) with a by ring.
      rewrite pow2_Z by lia. rewrite <- Zle_Qle. exact Hp1. }
  unfold binade. simpl Qnum. simpl Qden. fold a b.
  destruct (Qle_bool (pow2 (a - b)) (p # q)) eqn:E.
  - apply Qle_bool_iff in E. split; [exact E | exact Hup].
  - apply Qle_bool_false in E. split.
    + replace (a - b - 1) with (a - b - 1) by ring. exact Hlo.
    + replace (a - b - 1 + 1) with (a - b) by ring. exact E.
Qed.

Lemma binade_unique x e :
  (pow2 e <= x)%Q -> (x < pow2 (e + 1))%Q -> binade x = e.
Proof.
  intros H1 H2.
  assert (Hx : (0 < x)%Q) by (apply Qlt_le_trans with (pow2 e); [apply pow2_pos | exact H1]).
  destruct (binade_spec x Hx) as [H3 H4].
  destruct (Z.lt_total (binade x) e) as [Hlt | [Heq | Hgt]]; auto.
  - exfalso. assert (pow2 (binade x + 1) <= pow2 e)%Q by (apply pow2_le; lia).
    lra.
  - exfalso. assert (pow2 (e + 1) <= pow2 (binade x))%Q by (apply pow2_le; lia).
    lra.
Qed.

Lemma binade_mono x y : (0 < x)%Q -> (x <= y)%Q -> binade x <= binade y.
Proof.
  intros Hx Hxy.
  destruct (binade_spec x Hx) as [H1 H2].
  destruct (binade_spec y ltac:(lra)) as [H3 H4].
  destruct (Z.le_gt_cases (binade x) (binade y)) as [|Hgt]; auto.
  exfalso. assert (pow2 (binade y + 1) <= pow2 (binade x))%Q by (apply pow2_le; lia).
  lra.
Qed.

Lemma binade_compat x y : (0 < x)%Q -> (x == y)%Q -> binade x = binade y.
Proof.
  intros Hx Hxy. destruct (binade_spec x Hx) as [H1 H2].
  symmetry. apply binade_unique; rewrite <- Hxy; assumption.
Qed.


Lemma rne_compat s t : (s == t)%Q -> rne s = rne t.
Proof.
  intro H. unfold rne.
  assert (Hf : Qfloor s = Qfloor t) by (apply Qfloor_comp; exact H).
  rewrite Hf.
  assert (Hr : (s - inject_Z (Qfloor t) == t - inject_Z (Qfloor t))%Q) by (rewrite H; reflexivity).
  rewrite (Qle_bool_compat _ _ _ Hr), (Qeq_bool_compat _ _ _ Hr). reflexivity.
Qed.

Lemma rne_between s : Qfloor s <= rne s <= Qfloor s + 1.
Proof.
  unfold rne. destruct (Qle_bool _ _); [destruct (Qeq_bool _ _); [destruct (Z.even _)|]|]; lia.
Qed.

Lemma rne_ge n s : (inject_Z n <= s)%Q -> n <= rne s.
Proof.
  intro H. pose proof (rne_between s).
  apply Qfloor_resp_le in H. rewrite Qfloor_Z in H. lia.
Qed.

Lemma rne_le n s : (s <= inject_Z n)%Q -> rne s <= n.
Proof.
  intro H. pose proof (Qfloor_resp_le _ _ H) as Hf. rewrite Qfloor_Z in Hf.
  pose proof (rne_between s).
  destruct (Z.eq_dec (Qfloor s) n) as [Heq | Hne]; [| lia].
  pose proof (Qfloor_le s) as Hle. rewrite Heq in Hle.
  unfold rne. rewrite Heq.
  assert (Hr : (s - inject_Z n == 0)%Q) by lra.
  rewrite (Qle_bool_compat _ _ _ Hr), (Qeq_bool_compat _ _ _ Hr). simpl. lia.
Qed.

Lemma rne_mono s t : (s <= t)%Q -> rne s <= rne t.
Proof.
  intro H. pose proof (Qfloor_resp_le _ _ H) as Hf.
  pose proof (rne_between s). pose proof (rne_between t).
  destruct (Z.eq_dec (Qfloor s) (Qfloor t)) as [Heq | Hne]; [| lia].
  unfold rne. rewrite Heq. set (f := Qfloor t).
  assert (Hr : (s - inject_Z f <= t - inject_Z f)%Q) by lra.
  destruct (Qle_bool (s - inject_Z f) (1 # 2)) eqn:E1;
  destruct (Qle_bool (t - inject_Z f) (1 # 2)) eqn:E2;
  try destruct (Qeq_bool (s - inject_Z f) (1 # 2)) eqn:E3;
  try destruct (Qeq_bool (t - inject_Z f) (1 # 2)) eqn:E4;
  try destruct (Z.even f); try lia;
  repeat match goal with
  | E : Qle_bool _ _ = true |- _ => apply Qle_bool_iff in E
  | E : Qle_bool _ _ = false |- _ => apply Qle_bool_false in E
  | E : Qeq_bool _ _ = true |- _ => apply Qeq_bool_iff in E
  | E : Qeq_bool _ _ = false |- _ => apply Qeq_bool_neq in E
  end; exfalso; try lra;
  match goal with N : ~ (_ == _)%Q |- _ => apply N; lra end.
Qed.

Lemma round_pos_nonneg prec emin x : (0 <= round_pos prec emin x)%Q.
Proof.
  unfold round_pos. destruct (Qle_bool x 0) eqn:E; [lra|].
  apply Qle_bool_false in E.
  apply Qmult_le_0_compat; [| apply Qlt_le_weak, pow2_pos].
  change 0%Q with (inject_Z 0). rewrite <- Zle_Qle. apply rne_ge. apply Qle_shift_div_l; [apply pow2_pos|]. change (inject_Z 0) with 0%Q. rewrite Qmult_0_l. lra.
Qed.

(** Rounding is monotone. *)
Lemma round_pos_mono prec emin x y : 1 <= prec ->
  (x <= y)%Q -> (round_pos prec emin x <= round_pos prec emin y)%Q.
Proof.
  intros Hp Hxy. unfold round_pos at 1.
  destruct (Qle_bool x 0) eqn:Ex; [apply round_pos_nonneg|].
  apply Qle_bool_false in Ex. unfold round_pos.
  destruct (Qle_bool y 0) eqn:Ey; [apply Qle_bool_iff in Ey; lra|].
  apply Qle_bool_false in Ey.
  pose proof (binade_mono x y Ex Hxy) as Hb.
  unfold ulp_exp. set (kx := Z.max (binade x - (prec - 1)) emin).
  set (ky := Z.max (binade y - (prec - 1)) emin).
  destruct (Z.eq_dec kx ky) as [Hk | Hk].
  - rewrite Hk. apply Qmult_le_compat_r; [| apply Qlt_le_weak, pow2_pos].
    rewrite <- Zle_Qle. apply rne_mono.
    apply Qmult_le_compat_r; [exact Hxy |].
    apply Qlt_le_weak, Qinv_lt_0_compat, pow2_pos.
  - assert (Hky : ky = binade y - (prec - 1)) by lia.
    assert (Hbl : binade x < binade y) by lia.
    destruct (binade_spec x Ex) as [_ Hx2]. destruct (binade_spec y Ey) as [Hy1 _].
    set (N := Z.max (binade x + 1) kx).
    assert (HkN : kx <= N) by lia.
    apply Qle_trans with (pow2 N).
    + rewrite (Qmult_comm _ (pow2 kx)).
      replace (pow2 N) with (pow2 (kx + (N - kx))) by (f_equal; ring).
      rewrite pow2_add. apply Qmult_le_l; [apply pow2_pos|].
      rewrite (pow2_Z (N - kx)) by lia. rewrite <- Zle_Qle. apply rne_le.
      apply Qle_shift_div_r; [apply pow2_pos|].
      rewrite <- pow2_Z by lia. rewrite Qmult_comm, <- pow2_add.
      replace (kx + (N - kx)) with N by ring.
      assert (pow2 (binade x + 1) <= pow2 N)%Q by (apply pow2_le; lia). lra.
    + apply Qle_trans with (pow2 (binade y)); [apply pow2_le; lia|].
      rewrite (Qmult_comm _ (pow2 ky)).
      replace (binade y) with (ky + (prec - 1)) at 1 by lia.
      rewrite pow2_add. apply Qmult_le_l; [apply pow2_pos|].
      rewrite (pow2_Z (prec - 1)) by lia. rewrite <- Zle_Qle. apply rne_ge.
      apply Qle_shift_div_l; [apply pow2_pos|].
      rewrite <- pow2_Z by lia. rewrite Qmult_comm, <- pow2_add.
      replace (ky + (prec - 1)) with (binade y) by lia. exact Hy1.
Qed.

Lemma fl32_mono_nonneg x y : (0 <= x)%Q -> (x <= y)%Q -> (fl32 x <= fl32 y)%Q.
Proof.
  intros H0 H. unfold fl32, round_fmt.
  assert (Qle_bool 0 x = true) as -> by (apply Qle_bool_iff; exact H0).
  assert (Qle_bool 0 y = true) as -> by (apply Qle_bool_iff; lra).
  apply round_pos_mono; [lia | exact H].
Qed.

(** Rounding depends on the rational, not on its representation. *)
Lemma round_pos_compat prec emin x y : (x == y)%Q -> round_pos prec emin x = round_pos prec emin y.
Proof.
  intro H. unfold round_pos. rewrite (Qle_bool_compat _ _ _ H).
  destruct (Qle_bool y 0) eqn:E; [reflexivity|].
  apply Qle_bool_false in E. unfold ulp_exp.
  rewrite (binade_compat x y) by (lra || exact H).
  rewrite (rne_compat (x / pow2 _) (y / pow2 _)) by (rewrite H; reflexivity).
  reflexivity.
Qed.

Lemma fl32_compat x y : (x == y)%Q -> fl32 x = fl32 y.
Proof.
  intro H. unfold fl32, round_fmt. rewrite (Qle_bool_compat_r _ _ _ H).
  destruct (Qle_bool 0 y).
  - apply round_pos_compat. exact H.
  - rewrite (round_pos_compat _ _ (- x) (- y)) by (rewrite H; reflexivity). reflexivity.
Qed.

End RoundingFacts.

Import RoundingFacts.

(* ------------------------------------------------------------------ *)
(** ** The spectrogram builder *)

Module SpectrogramProofs.
Import Spectrogram.

Section Backend.
Variable cos_libm : Q -> Q.
Variable fftw : list (Q * Q) -> FftOutcome.
Variable abs_complex : Q * Q -> Q.

(** Storing bins keeps the number of rows and the length of every row. *)
Lemma storeBins_shape windowSize lo nb windowIdx out sp k :
  Forall (fun row => List.length row = k) sp ->
  List.length (storeBins abs_complex windowSize lo nb windowIdx out sp) = List.length sp /\
  Forall (fun row => List.length row = k)
    (storeBins abs_complex windowSize lo nb windowIdx out sp).
Proof.
  unfold storeBins. generalize (seq 0 (Z.to_nat nb)). intro l. revert sp.
  induction l as [| b l IH]; intros sp Hsp; simpl; [auto |].
  destruct (lo + Z.of_nat b <? windowSize / 2).
  - match goal with |- context [fold_left _ l (alter ?f b sp)] =>
      destruct (IH (alter f b sp)) as [Hl Hf] end.
    { apply Forall_alter; [exact Hsp |]. intros x _ Hx. rewrite length_insert. exact Hx. }
    split; [etransitivity; [exact Hl | apply length_alter] | exact Hf].
  - apply IH. exact Hsp.
Qed.

(** Storing bins never touches a row whose source bin is not below
    [windowSize / 2]. *)
Lemma storeBins_row_untouched windowSize lo nb windowIdx out sp i :
  windowSize / 2 <= lo + Z.of_nat i ->
  storeBins abs_complex windowSize lo nb windowIdx out sp !! i = sp !! i.
Proof.
  intro Hi. unfold storeBins. generalize (seq 0 (Z.to_nat nb)). intro l. revert sp.
  induction l as [| b l IH]; intro sp; simpl; [reflexivity |].
  destruct (lo + Z.of_nat b <? windowSize / 2) eqn:Hb; rewrite IH; [| reflexivity].
  apply list_lookup_alter_ne. intros ->. apply Z.ltb_lt in Hb. lia.
Qed.

Lemma processWindows_shape samples hw windowSize sh fuel : forall windowIdx sp sp' k,
  Forall (fun row => List.length row = k) sp ->
  processWindows fftw abs_complex samples hw windowSize sh fuel windowIdx sp = Success sp' ->
  List.length sp' = List.length sp /\ Forall (fun row => List.length row = k) sp'.
Proof.
  induction fuel as [| fuel IH]; intros windowIdx sp sp' k Hsp H; simpl in H.
  - injection H as <-. auto.
  - destruct (fft fftw _) as [| | out]; try discriminate.
    destruct (storeBins_shape windowSize (minBin sh) (numBins sh) windowIdx out sp k Hsp)
      as [Hl Hf].
    destruct (IH _ _ _ _ Hf H) as [Hl' Hf']. rewrite Hl', Hl. auto.
Qed.

Lemma processWindows_row_untouched samples hw windowSize sh fuel i :
  windowSize / 2 <= minBin sh + Z.of_nat i ->
  forall windowIdx sp sp',
  processWindows fftw abs_complex samples hw windowSize sh fuel windowIdx sp = Success sp' ->
  sp' !! i = sp !! i.
Proof.
  intro Hi. induction fuel as [| fuel IH]; intros windowIdx sp sp' H; simpl in H.
  - injection H as <-. reflexivity.
  - destruct (fft fftw _) as [| | out]; try discriminate.
    rewrite (IH _ _ _ H). apply storeBins_row_untouched. exact Hi.
Qed.

Lemma processWindows_failure samples hw windowSize sh fuel : forall windowIdx sp e,
  processWindows fftw abs_complex samples hw windowSize sh fuel windowIdx sp = Failure e ->
  e = "FFT error: Memory allocation failed for FFT"%string \/
  e = "FFT error: Failed to create FFT plan"%string.
Proof.
  induction fuel as [| fuel IH]; intros windowIdx sp e H; simpl in H; [discriminate |].
  destruct (fft fftw _) as [| | out].
  - injection H as <-. auto.
  - injection H as <-. auto.
  - exact (IH _ _ _ H).
Qed.

(** The successful outputs, in terms of the computed shape. *)
Lemma generateSpectrogram_success samples sampleRate windowSize overlap minFreq maxFreq sp :
  generateSpectrogram cos_libm fftw abs_complex samples sampleRate windowSize
    overlap minFreq maxFreq = Some (Success sp) ->
  exists sh,
    spectrogramShape (Z.of_nat (List.length samples)) sampleRate windowSize
      overlap minFreq maxFreq = Some (Success sh) /\
    processWindows fftw abs_complex samples (createHammingWindow cos_libm windowSize)
      windowSize sh (Z.to_nat (numWindows sh)) 0
      (repeat (repeat 0%Q (Z.to_nat (numWindows sh))) (Z.to_nat (numBins sh)))
      = Success sp.
Proof.
  unfold generateSpectrogram. intro H.
  destruct (spectrogramShape _ _ _ _ _ _) as [[sh | e] |]; try discriminate H.
  destruct (processWindows _ _ _ _ _ _ _ _ _) as [sp0 | e] eqn:Hp; try discriminate H.
  exists sh. split; [reflexivity |].
  destruct sp0 as [| [| x r] rest]; try discriminate H. injection H as <-. exact Hp.
Qed.

(** The failures of [generateSpectrogram]. *)
Lemma generateSpectrogram_failure samples sampleRate windowSize overlap minFreq maxFreq e :
  generateSpectrogram cos_libm fftw abs_complex samples sampleRate windowSize
    overlap minFreq maxFreq = Some (Failure e) ->
  spectrogramShape (Z.of_nat (List.length samples)) sampleRate windowSize
    overlap minFreq maxFreq = Some (Failure e) \/
  e = "FFT error: Memory allocation failed for FFT"%string \/
  e = "FFT error: Failed to create FFT plan"%string \/
  e = "Failed to generate spectrogram data"%string.
Proof.
  unfold generateSpectrogram. intro H.
  destruct (spectrogramShape _ _ _ _ _ _) as [[sh | e'] |]; try discriminate H.
  - destruct (processWindows _ _ _ _ _ _ _ _ _) as [sp0 | e'] eqn:Hp.
    + destruct sp0 as [| [| x r] rest]; try discriminate H;
        injection H as He; subst e; right; right; right; reflexivity.
    + injection H as He. subst e. right.
      destruct (processWindows_failure _ _ _ _ _ _ _ _ Hp); auto.
  - injection H as He. subst e. left. reflexivity.
Qed.

(** Every successful output has [numBins] rows of [numWindows] cells. *)
Lemma generateSpectrogram_rectangular samples sampleRate windowSize overlap minFreq maxFreq sp :
  generateSpectrogram cos_libm fftw abs_complex samples sampleRate windowSize
    overlap minFreq maxFreq = Some (Success sp) ->
  exists sh,
    spectrogramShape (Z.of_nat (List.length samples)) sampleRate windowSize
      overlap minFreq maxFreq = Some (Success sh) /\
    List.length sp = Z.to_nat (numBins sh) /\
    Forall (fun row => List.length row = Z.to_nat (numWindows sh)) sp.
Proof.
  intro H. destruct (generateSpectrogram_success _ _ _ _ _ _ _ H) as (sh & Hs & Hp).
  exists sh. split; [exact Hs |].
  assert (H0 : Forall (fun row => List.length row = Z.to_nat (numWindows sh))
    (repeat (repeat 0%Q (Z.to_nat (numWindows sh))) (Z.to_nat (numBins sh)))).
  { apply List.Forall_forall. intros row Hrow. apply repeat_spec in Hrow. subst row.
    apply repeat_length. }
  destruct (processWindows_shape _ _ _ _ _ _ _ _ _ H0 Hp) as [Hl Hf].
  rewrite Hl, repeat_length. auto.
Qed.

Lemma spectrogramShape_success numSamples sampleRate windowSize overlap minFreq maxFreq sh :
  spectrogramShape numSamples sampleRate windowSize overlap minFreq maxFreq =
    Some (Success sh) ->
  minBin sh < maxBin sh /\ maxBin sh <= windowSize / 2 /\
  numBins sh = maxBin sh - minBin sh + 1.
Proof.
  unfold spectrogramShape.
  repeat match goal with
         | |- context [if ?b then _ else _] => destruct b eqn:?
         | |- context [match ?x with _ => _ end] => destruct x eqn:?
         end; intro H; try discriminate H.
  all: injection H as <-; cbn [minBin maxBin numBins];
    match goal with Hb : (_ <=? _) = false |- _ => apply Z.leb_gt in Hb end; lia.
Qed.

Lemma lookup_repeat_lt {A} (x : A) n i : (i < n)%nat -> repeat x n !! i = Some x.
Proof.
  revert i. induction n as [| n IH]; intros i Hi; [lia |].
  destruct i as [| i]; [reflexivity |]. apply IH. lia.
Qed.

(** The bin width as the code computes it, an integer division. *)
Lemma integer_bin_width :
  spectrogramShape 4096 44100 2048 (1 # 2) 20 5000 =
    Some (Success (mkShape 1024 3 1 238 238)) /\
  Qceiling (20 / (44100 # 2048)) = 1 /\ Qfloor (5000 / (44100 # 2048)) = 232.
Proof. split; [| split]; vm_compute; reflexivity. Qed.

End Backend.

(** C1: for 240 samples and a window of 2048, [samples.size() - windowSize]
    wraps around, the window count is 4294967295 rather than 0, and the
    call never reports that the input is shorter than one window. *)
Lemma short_input_not_rejected cos_libm fftw abs_complex samples :
  List.length samples = 240%nat ->
  spectrogramShape (Z.of_nat (List.length samples)) 44100 2048 (1 # 2) 20 5000 =
    Some (Success (mkShape 1024 4294967295 1 238 238)) /\
  generateSpectrogram cos_libm fftw abs_complex samples 44100 2048 (1 # 2) 20 5000 <>
    Some (Failure "Sample size too small for given window size").
Proof.
  intro Hl.
  assert (Hs : spectrogramShape (Z.of_nat (List.length samples)) 44100 2048 (1 # 2) 20 5000 =
    Some (Success (mkShape 1024 4294967295 1 238 238))).
  { rewrite Hl. vm_compute. reflexivity. }
  split; [exact Hs |]. intro H.
  apply generateSpectrogram_failure in H. rewrite Hs in H.
  destruct H as [H | [H | [H | H]]]; discriminate H.
Qed.

Lemma short_input_not_rejected_witness :
  List.length (repeat 0%Q 240) = 240%nat /\
  (spectrogramShape (Z.of_nat (List.length (repeat 0%Q 240))) 44100 2048 (1 # 2) 20 5000 =
    Some (Success (mkShape 1024 4294967295 1 238 238)) /\
   generateSpectrogram (fun _ => 0%Q) (fun x => FftDone x) (fun _ => 0%Q)
     (repeat 0%Q 240) 44100 2048 (1 # 2) 20 5000 <>
     Some (Failure "Sample size too small for given window size")).
Proof.
  split; [reflexivity |].
  apply (short_input_not_rejected (fun _ => 0%Q) (fun x => FftDone x) (fun _ => 0%Q)).
  reflexivity.
Defined.

(** C4: when the clamped [maxBin] is [windowSize / 2], its row is guarded
    out by [sourceBinIdx < windowSize / 2] and keeps its initial zeros in
    every window, whatever the transform returns. *)
Lemma nyquist_row_left_zero cos_libm fftw abs_complex samples sampleRate windowSize
    overlap minFreq maxFreq sh sp :
  spectrogramShape (Z.of_nat (List.length samples)) sampleRate windowSize
    overlap minFreq maxFreq = Some (Success sh) ->
  maxBin sh = windowSize / 2 ->
  generateSpectrogram cos_libm fftw abs_complex samples sampleRate windowSize
    overlap minFreq maxFreq = Some (Success sp) ->
  sp !! Z.to_nat (numBins sh - 1) = Some (repeat 0%Q (Z.to_nat (numWindows sh))).
Proof.
  intros Hs Hmax H.
  destruct (generateSpectrogram_success _ _ _ _ _ _ _ _ _ _ H) as (sh' & Hs' & Hp).
  rewrite Hs in Hs'. injection Hs' as <-.
  destruct (spectrogramShape_success _ _ _ _ _ _ _ Hs) as (Hlt & _ & Hnb).
  assert (Hi : windowSize / 2 <= minBin sh + Z.of_nat (Z.to_nat (numBins sh - 1))) by lia.
  rewrite (processWindows_row_untouched _ _ _ _ _ _ _ _ Hi _ _ _ Hp).
  apply lookup_repeat_lt. lia.
Qed.

Lemma nyquist_row_left_zero_witness :
  spectrogramShape (Z.of_nat (List.length [0; 1; 0; 0]%Q)) 8 4 0 0 100 =
    Some (Success (mkShape 4 1 0 2 3)) /\
  maxBin (mkShape 4 1 0 2 3) = 4 / 2 /\
  generateSpectrogram (fun _ => 0%Q) (fun x => FftDone x) (fun _ => 1%Q)
    [0; 1; 0; 0]%Q 8 4 0 0 100 = Some (Success [[1]; [1]; [0]]%Q) /\
  [[1]; [1]; [0]]%Q !! Z.to_nat (numBins (mkShape 4 1 0 2 3) - 1) =
    Some (repeat 0%Q (Z.to_nat (numWindows (mkShape 4 1 0 2 3)))).
Proof.
  split; [vm_compute; reflexivity |].
  split; [reflexivity |].
  split; [vm_compute; reflexivity |].
  apply (nyquist_row_left_zero (fun _ => 0%Q) (fun x => FftDone x) (fun _ => 1%Q)
           [0; 1; 0; 0]%Q 8 4 0 0 100).
  - vm_compute. reflexivity.
  - reflexivity.
  - vm_compute. reflexivity.
Defined.

(** C7: with [2^32 + 2] samples, a window of 2 and step 1, the window count
    [(N - windowSize) / stepSize + 1 = 2^32 + 1] is narrowed to the 32-bit
    [unsigned int] 1. *)
Lemma window_count_narrowed :
  spectrogramShape (2 ^ 32 + 2) 44100 2 (1 # 2) 0 30000 =
    Some (Success (mkShape 1 1 0 1 2)) /\
  (2 ^ 32 + 2 - 2) / 1 + 1 = 2 ^ 32 + 1.
Proof. split; vm_compute; reflexivity. Qed.

End SpectrogramProofs.

(* ------------------------------------------------------------------ *)
(** ** The peak extractor *)

Module PeaksProofs.
Import Peaks PeaksSpec.

Lemma fold_app_flat_map {A B} (F : A -> list B) (l : list A) (acc : list B) :
  fold_left (fun acc x => acc ++ F x) l acc = acc ++ flat_map F l.
Proof.
  revert acc. induction l as [| x l IH]; intro acc; simpl.
  - rewrite app_nil_r. reflexivity.
  - rewrite IH, app_assoc. reflexivity.
Qed.

Lemma collectPeaks_flat_map s n nt :
  collectPeaks s n nt =
  flat_map (fun t => columnPeaks s n (Z.of_nat t)) (seq 0 (Z.to_nat nt)).
Proof. unfold collectPeaks. rewrite fold_app_flat_map. reflexivity. Qed.

Lemma In_bandBins n band f :
  In f (bandBins n band) <-> fst band <= f < Z.min (snd band) n.
Proof.
  unfold bandBins. rewrite in_map_iff. split.
  - intros (k & <- & Hk). apply in_seq in Hk. lia.
  - intro H. exists (Z.to_nat (f - fst band)). split; [lia |].
    apply in_seq. lia.
Qed.

Lemma bandStep_fold s t bins : forall mp found,
  let r := fold_left (bandStep s t) bins (mp, found) in
  time (fst r) = time mp /\ (magnitude mp <= magnitude (fst r))%Q /\
  (forall g, In g bins -> (cell s g t <= magnitude (fst r))%Q) /\
  (snd r = true ->
     (found = true /\ fst r = mp) \/
     exists f, In f bins /\ frequency (fst r) = fl32 (inject_Z f) /\
               magnitude (fst r) = cell s f t).
Proof.
  induction bins as [| g rest IH]; intros mp found; cbn zeta; cbn [fold_left].
  - repeat split; [apply Qle_refl | contradiction |]. intro; left; auto.
  - change (bandStep s t (mp, found) g) with
      (if Qltb (magnitude mp) (cell s g t)
       then (mkPeak (fl32 (inject_Z g)) (time mp) (cell s g t), true)
       else (mp, found)).
    destruct (Qltb (magnitude mp) (cell s g t)) eqn:Hlt.
    + unfold Qltb in Hlt. apply negb_true_iff, Qle_bool_false in Hlt.
      destruct (IH (mkPeak (fl32 (inject_Z g)) (time mp) (cell s g t)) true)
        as (Ht & Hm & Hall & Hf). simpl in Ht, Hm.
      split; [exact Ht | split; [lra | split]].
      * intros g' [<- | Hg']; [exact Hm | apply Hall; exact Hg'].
      * intro Hs. right. destruct (Hf Hs) as [[_ ->] | (f & Hin & Hfr & Hmg)].
        -- exists g. split; [left; reflexivity | split; reflexivity].
        -- exists f. split; [right; exact Hin | split; assumption].
    + unfold Qltb in Hlt. apply negb_false_iff, Qle_bool_iff in Hlt.
      destruct (IH mp found) as (Ht & Hm & Hall & Hf).
      split; [exact Ht | split; [exact Hm | split]].
      * intros g' [<- | Hg']; [lra | apply Hall; exact Hg'].
      * intro Hs. destruct (Hf Hs) as [H | (f & Hin & Hfr & Hmg)]; [left; exact H |].
        right. exists f. split; [right; exact Hin | split; assumption].
Qed.

(** A band maximum is the largest cell of its band, at the column's time. *)
Lemma bandMax_spec s n t band p :
  bandMax s n t band = Some p ->
  time p = fl32 (inject_Z t) /\
  exists f, fst band <= f < Z.min (snd band) n /\
    frequency p = fl32 (inject_Z f) /\ magnitude p = cell s f t /\
    forall g, fst band <= g < Z.min (snd band) n -> (cell s g t <= magnitude p)%Q.
Proof.
  unfold bandMax.
  pose proof (bandStep_fold s t (bandBins n band) (mkPeak 0 (fl32 (inject_Z t)) 0) false)
    as (Ht & _ & Hall & Hf).
  destruct (fold_left (bandStep s t) (bandBins n band) _) as [mp found].
  simpl in Ht, Hall, Hf. destruct found; [| discriminate].
  intro H. injection H as <-. split; [exact Ht |].
  destruct (Hf eq_refl) as [[H _] | (f & Hin & Hfr & Hmg)]; [discriminate |].
  exists f. apply In_bandBins in Hin. repeat split; try assumption; try lia.
  intros g Hg. apply Hall. apply In_bandBins. exact Hg.
Qed.

Lemma In_columnCandidates s n t p :
  In p (columnCandidates s n t) <->
  exists band, In band (freqBands n) /\ bandMax s n t band = Some p.
Proof.
  unfold columnCandidates. rewrite <- list_elem_of_In, list_elem_of_omap.
  split; intros (band & Hb & Hm); exists band; split; try exact Hm;
    apply list_elem_of_In; exact Hb.
Qed.

Lemma omap_length_le {A B} (f : A -> option B) (l : list A) :
  (List.length (omap f l) <= List.length l)%nat.
Proof.
  induction l as [| x l IH]; [simpl; lia |].
  change (omap f (x :: l)) with
    (match f x with Some y => y :: omap f l | None => omap f l end).
  destruct (f x); simpl; lia.
Qed.

Lemma filter_length_le' {A} (f : A -> bool) (l : list A) :
  (List.length (List.filter f l) <= List.length l)%nat.
Proof.
  induction l as [| x l IH]; simpl; [lia |]. destruct (f x); simpl; lia.
Qed.

Lemma In_columnPeaks s n t p :
  In p (columnPeaks s n t) <->
  In p (columnCandidates s n t) /\
  (avgMagnitude (columnCandidates s n t) < magnitude p)%Q.
Proof.
  unfold columnPeaks. destruct (columnCandidates s n t) as [| c cs] eqn:E.
  - simpl. tauto.
  - rewrite filter_In. unfold Qltb. rewrite negb_true_iff. split.
    + intros [H1 H2]. split; [exact H1 | apply Qle_bool_false; exact H2].
    + intros [H1 H2]. split; [exact H1 |].
      destruct (Qle_bool _ _) eqn:Hb; [| reflexivity].
      apply Qle_bool_iff in Hb. lra.
Qed.

Lemma columnPeaks_length s n t : (List.length (columnPeaks s n t) <= 6)%nat.
Proof.
  pose proof (omap_length_le (bandMax s n t) (freqBands n)) as H.
  unfold columnPeaks. fold (columnCandidates s n t) in H.
  destruct (columnCandidates s n t) as [| c cs]; simpl in *; [lia |].
  pose proof (filter_length_le' (fun p => Qltb (avgMagnitude (c :: cs)) (magnitude p)) (c :: cs)).
  simpl in *. lia.
Qed.

Lemma columnPeaks_time s n t p :
  In p (columnPeaks s n t) -> time p = fl32 (inject_Z t).
Proof.
  intro H. apply In_columnPeaks in H as [H _].
  apply In_columnCandidates in H as (band & _ & Hm).
  exact (proj1 (bandMax_spec _ _ _ _ _ Hm)).
Qed.

Lemma StronglySorted_app {A} (R : A -> A -> Prop) l1 l2 :
  StronglySorted R l1 -> StronglySorted R l2 ->
  (forall x y, In x l1 -> In y l2 -> R x y) -> StronglySorted R (l1 ++ l2).
Proof.
  induction l1 as [| x l1 IH]; intros H1 H2 H12; simpl; [exact H2 |].
  apply StronglySorted_inv in H1 as [Hs Hf]. constructor.
  - apply IH; auto. intros a b Ha Hb. apply H12; [right |]; assumption.
  - apply List.Forall_app. split; [exact Hf |].
    apply List.Forall_forall. intros y Hy. apply H12; [left; reflexivity | exact Hy].
Qed.

Lemma StronglySorted_same_time (l : list Peak) q :
  (forall p, In p l -> time p = q) ->
  StronglySorted (fun p p' => (time p <= time p')%Q) l.
Proof.
  induction l as [| x l IH]; intro H; constructor.
  - apply IH. intros p Hp. apply H. right. exact Hp.
  - apply List.Forall_forall. intros y Hy.
    rewrite (H x (or_introl eq_refl)), (H y (or_intror Hy)). apply Qle_refl.
Qed.

Lemma fl32_of_nat_mono (a b : nat) : (a <= b)%nat ->
  (fl32 (inject_Z (Z.of_nat a)) <= fl32 (inject_Z (Z.of_nat b)))%Q.
Proof.
  intro H. apply fl32_mono_nonneg.
  - change 0%Q with (inject_Z 0). rewrite <- Zle_Qle. lia.
  - rewrite <- Zle_Qle. lia.
Qed.

Lemma collectPeaks_sorted s n k : forall a,
  StronglySorted (fun p p' => (time p <= time p')%Q)
    (flat_map (fun t => columnPeaks s n (Z.of_nat t)) (seq a k)).
Proof.
  induction k as [| k IH]; intro a; simpl; [constructor |].
  apply StronglySorted_app; [| apply IH |].
  - apply (StronglySorted_same_time _ (fl32 (inject_Z (Z.of_nat a)))).
    intros p Hp. exact (columnPeaks_time _ _ _ _ Hp).
  - intros x y Hx Hy. apply in_flat_map in Hy as (b & Hb & Hy).
    apply in_seq in Hb.
    rewrite (columnPeaks_time _ _ _ _ Hx), (columnPeaks_time _ _ _ _ Hy).
    apply fl32_of_nat_mono. lia.
Qed.

Lemma collectPeaks_length s n k : forall a,
  (List.length (flat_map (fun t => columnPeaks s n (Z.of_nat t)) (seq a k)) <= 6 * k)%nat.
Proof.
  induction k as [| k IH]; intro a; simpl; [lia |].
  rewrite length_app. pose proof (columnPeaks_length s n (Z.of_nat a)).
  pose proof (IH (S a)). lia.
Qed.

(** The successful runs of [extractPeaks]. *)
Lemma extractPeaks_success s ps :
  extractPeaks s = Success ps ->
  exists row0 rest, s = row0 :: rest /\ row0 <> [] /\
    validateBands (u32 (Z.of_nat (List.length s))) (freqBands (u32 (Z.of_nat (List.length s)))) = None /\
    ps = collectPeaks s (u32 (Z.of_nat (List.length s))) (u32 (Z.of_nat (List.length row0))) /\
    ps <> [].
Proof.
  unfold extractPeaks. destruct s as [| row0 rest]; [discriminate |].
  destruct row0 as [| x xs]; [discriminate |].
  destruct (validateBands _ _) eqn:Hv; [discriminate |].
  destruct (collectPeaks _ _ _) as [| p ps'] eqn:Hc; [discriminate |].
  intro H. injection H as <-. exists (x :: xs), rest.
  repeat split; try discriminate. rewrite Hc. reflexivity.
Qed.

Lemma validateBands_none n bands :
  validateBands n bands = None ->
  forall lo hi, In (lo, hi) bands -> lo < hi /\ hi <= n.
Proof.
  induction bands as [| [lo0 hi0] rest IH]; simpl; [contradiction |].
  destruct (hi0 <=? lo0) eqn:H1; [discriminate |].
  destruct (n <? hi0) eqn:H2; [discriminate |].
  intros Hv lo hi [Heq | Hin].
  - injection Heq as <- <-. apply Z.leb_gt in H1. apply Z.ltb_ge in H2. lia.
  - exact (IH Hv lo hi Hin).
Qed.

Lemma avgMagnitude_single p :
  (fl32 (magnitude p) == magnitude p)%Q -> (avgMagnitude [p] == magnitude p)%Q.
Proof.
  intro Hf. unfold avgMagnitude. cbn [fold_left List.length].
  assert (H1 : (fl32 (inject_Z (Z.of_nat 1)) == 1)%Q) by (vm_compute; reflexivity).
  rewrite (fl32_compat (0 + magnitude p) (magnitude p)) by ring.
  rewrite (fl32_compat (fl32 (magnitude p) / fl32 (inject_Z (Z.of_nat 1))) (magnitude p)).
  - exact Hf.
  - rewrite H1, Hf. field.
Qed.

Lemma u32_nonneg z : 0 <= u32 z.
Proof. unfold u32. apply Z.mod_pos_bound. lia. Qed.

(** C5: on a spectrogram with a non-empty first row, [extractPeaks] fails
    exactly when a frequency band is invalid or no column yields a peak;
    a zero-width band is one of the invalid ones, so it makes the whole
    call fail instead of being skipped. *)
Lemma extractPeaks_failure_cases s :
  s <> [] -> hd [] s <> [] ->
  let nfb := u32 (Z.of_nat (List.length s)) in
  (isSuccess (extractPeaks s) = false <->
     validateBands nfb (freqBands nfb) <> None \/
     collectPeaks s nfb (u32 (Z.of_nat (List.length (hd [] s)))) = []) /\
  (forall lo hi, In (lo, hi) (freqBands nfb) -> hi <= lo ->
     isSuccess (extractPeaks s) = false).
Proof.
  intros Hs Hr nfb. destruct s as [| row0 rest]; [congruence |].
  destruct row0 as [| x xs]; [simpl in Hr; congruence |].
  assert (Hiff : isSuccess (extractPeaks ((x :: xs) :: rest)) = false <->
     validateBands nfb (freqBands nfb) <> None \/
     collectPeaks ((x :: xs) :: rest) nfb
       (u32 (Z.of_nat (List.length (hd [] ((x :: xs) :: rest))))) = []).
  { unfold extractPeaks. fold nfb. cbn [hd].
    destruct (validateBands nfb (freqBands nfb)) as [e |]; cbn [isSuccess].
    - split; [intros _; left; discriminate | reflexivity].
    - destruct (collectPeaks _ _ _) as [| p ps]; cbn [isSuccess].
      + split; [intros _; right; reflexivity | reflexivity].
      + split; [discriminate |]. intros [H | H]; [congruence | discriminate]. }
  split; [exact Hiff |].
  intros lo hi Hin Hle. apply Hiff. left. intro Hv.
  pose proof (validateBands_none _ _ Hv lo hi Hin). lia.
Qed.

Lemma extractPeaks_failure_cases_witness :
  let s := [[1%Q]; [2%Q]; [3%Q]; [4%Q]; [5%Q]] in
  let nfb := u32 (Z.of_nat (List.length s)) in
  ((isSuccess (extractPeaks s) = false <->
     validateBands nfb (freqBands nfb) <> None \/
     collectPeaks s nfb (u32 (Z.of_nat (List.length (hd [] s)))) = []) /\
   (forall lo hi, In (lo, hi) (freqBands nfb) -> hi <= lo ->
     isSuccess (extractPeaks s) = false)) /\
  isSuccess (extractPeaks s) = false.
Proof.
  cbv zeta. split.
  - apply (extractPeaks_failure_cases [[1%Q]; [2%Q]; [3%Q]; [4%Q]; [5%Q]]);
      vm_compute; discriminate.
  - vm_compute. reflexivity.
Defined.

(** C5 (counterexample): with five bins the first band is [0, 0]; the
    call reports it as an error although two peaks would be found.  The
    same error comes for every bin count from 1 to 9. *)
Lemma zero_width_band_fails :
  In (0, 0) (freqBands 5) /\
  extractPeaks [[1%Q]; [2%Q]; [3%Q]; [4%Q]; [5%Q]] =
    Failure "Invalid frequency band: [0, 0]" /\
  List.length (collectPeaks [[1%Q]; [2%Q]; [3%Q]; [4%Q]; [5%Q]] 5 1) = 2%nat /\
  forall n, 1 <= n <= 9 ->
    validateBands n (freqBands n) = Some "Invalid frequency band: [0, 0]"%string.
Proof.
  split; [| split; [| split]].
  - vm_compute. left. reflexivity.
  - vm_compute. reflexivity.
  - vm_compute. reflexivity.
  - intros n Hn.
    assert (n = 1 \/ n = 2 \/ n = 3 \/ n = 4 \/ n = 5 \/ n = 6 \/ n = 7 \/ n = 8 \/ n = 9)
      as Hcases by lia.
    repeat destruct Hcases as [-> | Hcases]; try (subst n); vm_compute; reflexivity.
Qed.

(** C8: the peaks of a successful call are sorted by time; each comes
    from a column [t], is the largest cell of one frequency band in that
    column, and its magnitude exceeds the float [avgMagnitude] of the
    column's candidates. *)
Lemma extractPeaks_sorted_local_max s ps :
  extractPeaks s = Success ps ->
  let nfb := u32 (Z.of_nat (List.length s)) in
  StronglySorted (fun p p' => (time p <= time p')%Q) ps /\
  forall p, In p ps ->
    exists t lo hi f,
      0 <= t < u32 (Z.of_nat (List.length (hd [] s))) /\
      time p = fl32 (inject_Z t) /\
      In (lo, hi) (freqBands nfb) /\ lo <= f < Z.min hi nfb /\
      frequency p = fl32 (inject_Z f) /\ magnitude p = cell s f t /\
      (forall g, lo <= g < Z.min hi nfb -> (cell s g t <= magnitude p)%Q) /\
      In p (columnCandidates s nfb t) /\
      (avgMagnitude (columnCandidates s nfb t) < magnitude p)%Q.
Proof.
  intros H nfb.
  destruct (extractPeaks_success _ _ H) as (row0 & rest & -> & _ & _ & -> & _).
  cbn [hd]. fold nfb. rewrite collectPeaks_flat_map. split; [apply collectPeaks_sorted |].
  intros p Hp. apply in_flat_map in Hp as (t & Ht & Hp). apply in_seq in Ht.
  pose proof (u32_nonneg (Z.of_nat (List.length row0))).
  exists (Z.of_nat t).
  apply In_columnPeaks in Hp as [Hc Havg].
  pose proof Hc as Hc'.
  apply In_columnCandidates in Hc' as ([lo hi] & Hb & Hm).
  destruct (bandMax_spec _ _ _ _ _ Hm) as (Htime & f & Hf & Hfr & Hmg & Hmax).
  simpl in Hf, Hmax. exists lo, hi, f.
  repeat split; try assumption; lia.
Qed.

Lemma extractPeaks_sorted_local_max_witness :
  let s := [[1%Q]; [2%Q]; [3%Q]; [4%Q]; [5%Q]; [6%Q]; [7%Q]; [8%Q]; [9%Q]; [10%Q]] in
  let ps := collectPeaks s 10 1 in
  (let nfb := u32 (Z.of_nat (List.length s)) in
  StronglySorted (fun p p' => (time p <= time p')%Q) ps /\
  forall p, In p ps ->
    exists t lo hi f,
      0 <= t < u32 (Z.of_nat (List.length (hd [] s))) /\
      time p = fl32 (inject_Z t) /\
      In (lo, hi) (freqBands nfb) /\ lo <= f < Z.min hi nfb /\
      frequency p = fl32 (inject_Z f) /\ magnitude p = cell s f t /\
      (forall g, lo <= g < Z.min hi nfb -> (cell s g t <= magnitude p)%Q) /\
      In p (columnCandidates s nfb t) /\
      (avgMagnitude (columnCandidates s nfb t) < magnitude p)%Q) /\
  List.length ps = 3%nat.
Proof.
  cbv zeta. split.
  - apply (extractPeaks_sorted_local_max
             [[1%Q]; [2%Q]; [3%Q]; [4%Q]; [5%Q]; [6%Q]; [7%Q]; [8%Q]; [9%Q]; [10%Q]]).
    vm_compute. reflexivity.
  - vm_compute. reflexivity.
Defined.

(** C8 (counterexample): ten bins of one equal float value [v] in one
    column.  All six band candidates have magnitude [v], the exact mean of
    the candidates is [v], and yet all six are emitted: the float
    [avgMagnitude] is one ulp below [v]. *)
Lemma peak_not_above_exact_mean :
  let s := repeat [10098394 # 134217728] 10 in
  match extractPeaks s with
  | Success ps =>
    ps <> [] /\
    (meanExact (columnCandidates s 10 0) == 10098394 # 134217728)%Q /\
    forallb (fun p => Qeq_bool (magnitude p) (meanExact (columnCandidates s 10 0))) ps = true
  | Failure _ => False
  end.
Proof.
  vm_compute. split; [discriminate | split; reflexivity].
Qed.

(** C10: a column yields at most one peak per band, so at most six; a
    column with a single candidate whose magnitude is a float yields none;
    a successful call returns at most six peaks per time window. *)
Lemma extractPeaks_peak_count s ps :
  extractPeaks s = Success ps ->
  let nfb := u32 (Z.of_nat (List.length s)) in
  (forall t, (List.length (columnPeaks s nfb t) <= 6)%nat) /\
  (forall t p, columnCandidates s nfb t = [p] ->
     (fl32 (magnitude p) == magnitude p)%Q -> columnPeaks s nfb t = []) /\
  (List.length ps <= 6 * Z.to_nat (u32 (Z.of_nat (List.length (hd [] s)))))%nat.
Proof.
  intros H nfb. split; [| split].
  - intro t. apply columnPeaks_length.
  - intros t p Hc Hf. unfold columnPeaks. rewrite Hc. cbn [List.filter].
    unfold Qltb. replace (Qle_bool (magnitude p) (avgMagnitude [p])) with true.
    + reflexivity.
    + symmetry. apply Qle_bool_iff. rewrite avgMagnitude_single by exact Hf.
      apply Qle_refl.
  - destruct (extractPeaks_success _ _ H) as (row0 & rest & -> & _ & _ & -> & _).
    cbn [hd]. rewrite collectPeaks_flat_map. apply collectPeaks_length.
Qed.

Lemma extractPeaks_peak_count_witness :
  let s := [[1%Q]; [2%Q]; [3%Q]; [4%Q]; [5%Q]; [6%Q]; [7%Q]; [8%Q]; [9%Q]; [10%Q]] in
  let ps := collectPeaks s 10 1 in
  let nfb := u32 (Z.of_nat (List.length s)) in
  (forall t, (List.length (columnPeaks s nfb t) <= 6)%nat) /\
  (forall t p, columnCandidates s nfb t = [p] ->
     (fl32 (magnitude p) == magnitude p)%Q -> columnPeaks s nfb t = []) /\
  (List.length ps <= 6 * Z.to_nat (u32 (Z.of_nat (List.length (hd [] s)))))%nat.
Proof.
  cbv zeta.
  apply (extractPeaks_peak_count
           [[1%Q]; [2%Q]; [3%Q]; [4%Q]; [5%Q]; [6%Q]; [7%Q]; [8%Q]; [9%Q]; [10%Q]]).
  vm_compute. reflexivity.
Defined.

(** C10 (counterexample): one time window, six peaks. *)
Lemma six_peaks_in_one_window :
  let s := repeat [10098394 # 134217728] 10 in
  (fl32 (10098394 # 134217728) == 10098394 # 134217728)%Q /\
  List.length (hd [] s) = 1%nat /\
  match extractPeaks s with
  | Success ps => List.length ps = 6%nat
  | Failure _ => False
  end.
Proof.
  cbv zeta. split; [| split]; vm_compute; reflexivity.
Qed.

End PeaksProofs.

(* ------------------------------------------------------------------ *)
(** ** The fingerprint hasher *)

Module FingerprintProofs.
Import Peaks Fingerprint FingerprintSpec.

Lemma lor_mul_pow2 a c k : 0 <= k -> 0 <= c < 2 ^ k ->
  Z.lor (a * 2 ^ k) c = a * 2 ^ k + c.
Proof.
  intros Hk Hc.
  assert (Hand : Z.land (a * 2 ^ k) c = 0).
  { apply Z.bits_inj'. intros n Hn. rewrite Z.land_spec, Z.bits_0.
    destruct (Z.lt_ge_cases n k) as [Hlt | Hge].
    - rewrite <- Z.shiftl_mul_pow2 by lia. rewrite Z.shiftl_spec_low by lia. reflexivity.
    - rewrite <- (Z.mod_small c (2 ^ k)) by lia.
      rewrite Z.mod_pow2_bits_high by lia. apply andb_false_r. }
  rewrite <- Z.lxor_lor by exact Hand. rewrite Z.add_nocarry_lxor by exact Hand.
  reflexivity.
Qed.

Lemma castU32_field x n : 0 <= n <= 32 ->
  Z.land (castU32 x) (Z.ones n) = trunc x mod 2 ^ n.
Proof.
  intro Hn. rewrite Z.land_ones by lia. unfold castU32, u32.
  apply Z.mod_mod_divide. exists (2 ^ (32 - n)).
  rewrite <- Z.pow_add_r by lia. f_equal. lia.
Qed.

(** The layout of [pairHash]: bits 31-22, 21-12 and 11-0. *)
Lemma pairHash_fields a t :
  let h := pairHash a t in
  0 <= h < 2 ^ 32 /\
  h / 2 ^ 22 = trunc (frequency a) mod 2 ^ 10 /\
  (h / 2 ^ 12) mod 2 ^ 10 = trunc (frequency t) mod 2 ^ 10 /\
  h mod 2 ^ 12 = trunc (fl32 (timeDelta a t * 10)) mod 2 ^ 12.
Proof.
  unfold pairHash.
  change 1023 with (Z.ones 10). change 4095 with (Z.ones 12).
  rewrite !castU32_field by lia.
  set (A := trunc (frequency a) mod 2 ^ 10).
  set (B := trunc (frequency t) mod 2 ^ 10).
  set (C := trunc (fl32 (timeDelta a t * 10)) mod 2 ^ 12).
  assert (HA : 0 <= A < 2 ^ 10) by (apply Z.mod_pos_bound; lia).
  assert (HB : 0 <= B < 2 ^ 10) by (apply Z.mod_pos_bound; lia).
  assert (HC : 0 <= C < 2 ^ 12) by (apply Z.mod_pos_bound; lia).
  rewrite !Z.shiftl_mul_pow2 by lia.
  rewrite lor_mul_pow2 by (lia || (split; [lia|]; change (2 ^ 22) with (2 ^ 10 * 2 ^ 12); nia)).
  replace (A * 2 ^ 22 + B * 2 ^ 12) with ((A * 2 ^ 10 + B) * 2 ^ 12) by ring.
  rewrite lor_mul_pow2 by lia.
  cbv zeta. split; [| split; [| split]].
  - change (2 ^ 32) with (2 ^ 10 * 2 ^ 10 * 2 ^ 12). nia.
  - symmetry. apply Z.div_unique with (r := B * 2 ^ 12 + C); [left; lia | ring].
  - rewrite <- (Z.div_unique _ (2 ^ 12) (A * 2 ^ 10 + B) C) by (ring || (left; lia)).
    rewrite Z.add_comm, Z.mod_add by lia. apply Z.mod_small. exact HB.
  - rewrite Z.add_comm, Z.mod_add by lia. apply Z.mod_small. exact HC.
Qed.


Lemma consistent_empty sid peaks : consistent sid peaks ∅.
Proof. intros h es H. rewrite lookup_empty in H. discriminate. Qed.

Lemma consistent_emit sid peaks fp a t :
  consistent sid peaks fp -> In a peaks -> In t peaks ->
  consistent sid peaks (emit sid a fp t).
Proof.
  intros Hc Ha Ht h es Hl. unfold emit, addHash in Hl.
  destruct (decide (h = pairHash a t)) as [-> | Hne].
  - rewrite lookup_insert_eq in Hl. injection Hl as <-. split.
    + intro Hnil. destruct (default [] (fp !! pairHash a t)); discriminate.
    + intros e He. apply in_app_or in He as [He | [<- | []]].
      * destruct (fp !! pairHash a t) as [es0 |] eqn:E; [| contradiction].
        exact (proj2 (Hc _ _ E) e He).
      * repeat split. exists a, t. auto.
  - rewrite lookup_insert_ne in Hl by congruence. exact (Hc _ _ Hl).
Qed.

Lemma consistent_scanTargets sid peaks anchor targets :
  In anchor peaks -> incl targets peaks ->
  forall cnt fp, consistent sid peaks fp ->
  consistent sid peaks (scanTargets sid anchor cnt targets fp).
Proof.
  intros Ha. induction targets as [| t rest IH]; intros Hincl cnt fp Hc; simpl; [exact Hc |].
  assert (Ht : In t peaks) by (apply Hincl; left; reflexivity).
  assert (Hr : incl rest peaks) by (intros x Hx; apply Hincl; right; exact Hx).
  destruct (cnt <? 5)%nat; [| exact Hc].
  destruct (Qltb _ _); [apply IH; auto |].
  destruct (Qltb 3 _); [exact Hc |].
  destruct (Qltb 30 _); [apply IH; auto |].
  apply IH; auto. apply (consistent_emit _ _ _ _ _ Hc Ha Ht).
Qed.

Lemma consistent_pairAll sid peaks ps :
  incl ps peaks -> forall fp, consistent sid peaks fp ->
  consistent sid peaks (pairAll sid ps fp).
Proof.
  induction ps as [| a rest IH]; intros Hincl fp Hc; simpl; [exact Hc |].
  apply IH; [intros x Hx; apply Hincl; right; exact Hx |].
  apply consistent_scanTargets; [apply Hincl; left; reflexivity | | exact Hc].
  intros x Hx; apply Hincl; right; exact Hx.
Qed.

Lemma createFingerprint_success peaks sid m :
  createFingerprint peaks sid = Success m ->
  peaks <> [] /\ 0 <= sid /\ m = pairAll sid peaks ∅ /\ m <> ∅.
Proof.
  unfold createFingerprint. destruct peaks as [| p ps]; [discriminate |].
  destruct (sid <? 0) eqn:Hs; [discriminate |].
  destruct (size (pairAll sid (p :: ps) ∅) =? 0)%nat eqn:Hz; [discriminate |].
  intro H. injection H as <-. repeat split; [discriminate | lia |].
  intro He. apply Nat.eqb_neq in Hz. apply Hz. apply map_size_empty_iff. exact He.
Qed.

Lemma createFingerprint_consistent peaks sid m :
  createFingerprint peaks sid = Success m -> consistent sid peaks m.
Proof.
  intro H. apply createFingerprint_success in H as (_ & _ & -> & _).
  apply consistent_pairAll; [intros x Hx; exact Hx | apply consistent_empty].
Qed.

Lemma scanTargets_paired sid anchor targets :
  forall cnt fp, (cnt <= 5)%nat ->
  scanTargets sid anchor cnt targets fp =
  fold_left (emit sid anchor)
    (firstn (5 - cnt) (List.filter (inZone anchor) (beforeBreak anchor targets))) fp.
Proof.
  induction targets as [| t rest IH]; intros cnt fp Hc.
  - simpl. rewrite firstn_nil. reflexivity.
  - cbn [scanTargets beforeBreak].
    destruct (cnt <? 5)%nat eqn:Hlt.
    + apply Nat.ltb_lt in Hlt.
      destruct (Qltb (timeDelta anchor t) (1 # 2)) eqn:E1; cbn [negb andb].
      { cbn [List.filter]. unfold inZone at 1. rewrite E1. cbn [negb andb].
        apply IH. lia. }
      destruct (Qltb 3 (timeDelta anchor t)) eqn:E2; cbn [negb andb].
      { simpl. rewrite firstn_nil. reflexivity. }
      cbn [List.filter]. unfold inZone at 1. rewrite E1, E2. cbn [negb andb].
      destruct (Qltb 30 (freqDelta anchor t)) eqn:E3; cbn [negb andb].
      { apply IH. lia. }
      replace (5 - cnt)%nat with (S (5 - S cnt)) by lia. simpl.
      apply IH. lia.
    + apply Nat.ltb_ge in Hlt. replace (5 - cnt)%nat with 0%nat by lia. reflexivity.
Qed.

(** C2: from every anchor, the scan emits exactly the first five targets of
    the target zone [0.5 <= timeDelta <= 3.0], [freqDelta <= 30], among the
    targets before the first one whose [timeDelta] exceeds 3.0. *)
Lemma pairAll_anchor_scan sid anchor rest fp :
  pairAll sid (anchor :: rest) fp =
  pairAll sid rest (fold_left (emit sid anchor) (pairedTargets anchor rest) fp).
Proof.
  cbn [pairAll]. rewrite scanTargets_paired by lia. reflexivity.
Qed.

(** C2 (counterexample): a target exactly 3.0 time units after the anchor
    is paired: the hash 30 (frequency bins 0 and 0, [timeDelta * 10 = 30])
    is in the fingerprint. *)
Lemma pair_at_three_emitted :
  (timeDelta (mkPeak 0 0 1) (mkPeak 0 3 1) == 3)%Q /\
  match createFingerprint [mkPeak 0 0 1; mkPeak 0 3 1] 0 with
  | Success m => m !! 30 = Some [mkFingerprintHash 30 0 0]
  | Failure _ => False
  end.
Proof. split; vm_compute; reflexivity. Qed.

(** C3: every entry stored under [h] comes from a pair of input peaks
    [a], [t] such that bits 31-22 of [h] are the truncated anchor bin,
    bits 21-12 the truncated target bin and bits 11-0 the truncation
    (not the rounding) of the float [timeDelta * 10], each masked. *)
Lemma createFingerprint_hash_layout peaks sid m h es e :
  createFingerprint peaks sid = Success m -> m !! h = Some es -> In e es ->
  exists a t, In a peaks /\ In t peaks /\ anchorTime e = time a /\
    0 <= h < 2 ^ 32 /\
    h / 2 ^ 22 = trunc (frequency a) mod 2 ^ 10 /\
    (h / 2 ^ 12) mod 2 ^ 10 = trunc (frequency t) mod 2 ^ 10 /\
    h mod 2 ^ 12 = trunc (fl32 (timeDelta a t * 10)) mod 2 ^ 12.
Proof.
  intros Hs Hl He. apply createFingerprint_consistent in Hs.
  destruct (Hs h es Hl) as [_ Hall].
  destruct (Hall e He) as (_ & _ & a & t & Ha & Ht & -> & Htime).
  exists a, t. repeat split; try assumption; apply pairHash_fields.
Qed.

Lemma createFingerprint_hash_layout_witness :
  exists a t, In a [mkPeak 0 0 1; mkPeak 0 (3 # 4) 1] /\
    In t [mkPeak 0 0 1; mkPeak 0 (3 # 4) 1] /\
    anchorTime (mkFingerprintHash 7 0 0) = time a /\
    0 <= 7 < 2 ^ 32 /\
    7 / 2 ^ 22 = trunc (frequency a) mod 2 ^ 10 /\
    (7 / 2 ^ 12) mod 2 ^ 10 = trunc (frequency t) mod 2 ^ 10 /\
    7 mod 2 ^ 12 = trunc (fl32 (timeDelta a t * 10)) mod 2 ^ 12.
Proof.
  apply (createFingerprint_hash_layout [mkPeak 0 0 1; mkPeak 0 (3 # 4) 1] 0
           (pairAll 0 [mkPeak 0 0 1; mkPeak 0 (3 # 4) 1] ∅) 7
           [mkFingerprintHash 7 0 0] (mkFingerprintHash 7 0 0)).
  - vm_compute. reflexivity.
  - vm_compute. reflexivity.
  - left. reflexivity.
Defined.

(** C3 (counterexample): at [timeDelta = 0.75] the low 12 bits are 7, the
    truncation of 7.5, where rounding gives 8. *)
Lemma hash_truncates_time_delta :
  (timeDelta (mkPeak 0 0 1) (mkPeak 0 (3 # 4) 1) == 3 # 4)%Q /\
  roundHalfAway (timeDelta (mkPeak 0 0 1) (mkPeak 0 (3 # 4) 1) * 10) = 8 /\
  match createFingerprint [mkPeak 0 0 1; mkPeak 0 (3 # 4) 1] 0 with
  | Success m => m !! 7 = Some [mkFingerprintHash 7 0 0] /\ m !! 8 = None
  | Failure _ => False
  end.
Proof. split; [| split]; vm_compute; [reflexivity | reflexivity | split; reflexivity]. Qed.

(** C6: [createFingerprint] fails exactly when the peaks are empty, the
    song id is negative, or the pairing produced no hash; the first two
    are reported before any pairing; a success is the non-empty map the
    pairing built. *)
Lemma createFingerprint_failure_iff peaks sid :
  (isSuccess (createFingerprint peaks sid) = false <->
     peaks = [] \/ sid < 0 \/ pairAll sid peaks ∅ = ∅) /\
  (peaks = [] -> createFingerprint peaks sid = Failure "Empty peaks vector provided") /\
  (peaks <> [] -> sid < 0 ->
     createFingerprint peaks sid =
     Failure (String.append "Invalid song ID: " (to_string sid))) /\
  (forall m, createFingerprint peaks sid = Success m ->
     m = pairAll sid peaks ∅ /\ m <> ∅).
Proof.
  split; [| split; [| split]].
  - unfold createFingerprint. destruct peaks as [| p ps].
    + split; auto.
    + destruct (sid <? 0) eqn:Hs; cbn [isSuccess].
      * split; [intros _; right; left; lia | reflexivity].
      * destruct (size (pairAll sid (p :: ps) ∅) =? 0)%nat eqn:Hz; cbn [isSuccess].
        -- split; [intros _ | reflexivity]. right; right.
           apply map_size_empty_iff. apply Nat.eqb_eq. exact Hz.
        -- split; [discriminate |]. intros [H | [H | H]]; [discriminate | lia |].
           rewrite H, map_size_empty in Hz. discriminate.
  - intros ->. reflexivity.
  - intros Hne Hs. unfold createFingerprint. destruct peaks; [congruence |].
    apply Z.ltb_lt in Hs. rewrite Hs. reflexivity.
  - intros m Hm. apply createFingerprint_success in Hm. tauto.
Qed.

Lemma createFingerprint_failure_iff_witness :
  ((isSuccess (createFingerprint [mkPeak 0 0 1] 0) = false <->
     [mkPeak 0 0 1] = [] \/ 0 < 0 \/ pairAll 0 [mkPeak 0 0 1] ∅ = ∅) /\
   ([mkPeak 0 0 1] = [] ->
      createFingerprint [mkPeak 0 0 1] 0 = Failure "Empty peaks vector provided") /\
   ([mkPeak 0 0 1] <> [] -> 0 < 0 ->
      createFingerprint [mkPeak 0 0 1] 0 =
      Failure (String.append "Invalid song ID: " (to_string 0))) /\
   (forall m, createFingerprint [mkPeak 0 0 1] 0 = Success m ->
      m = pairAll 0 [mkPeak 0 0 1] ∅ /\ m <> ∅)) /\
  isSuccess (createFingerprint [mkPeak 0 0 1] 0) = false.
Proof.
  split; [apply (createFingerprint_failure_iff [mkPeak 0 0 1] 0) | vm_compute; reflexivity].
Defined.

(** C9: every bucket of a successful fingerprint is non-empty and each of
    its entries carries the bucket's key, the caller's song id and the time
    of an input peak. *)
Lemma createFingerprint_buckets peaks sid m h es :
  createFingerprint peaks sid = Success m -> m !! h = Some es ->
  es <> [] /\
  forall e, In e es ->
    hash e = h /\ songId e = sid /\ exists a, In a peaks /\ anchorTime e = time a.
Proof.
  intros Hs Hl. apply createFingerprint_consistent in Hs.
  destruct (Hs h es Hl) as [Hne Hall]. split; [exact Hne |].
  intros e He. destruct (Hall e He) as (Hh & Hsid & a & t & Ha & _ & _ & Hat).
  repeat split; auto. exists a. auto.
Qed.

Lemma createFingerprint_buckets_witness :
  [mkFingerprintHash 30 0 0] <> [] /\
  forall e, In e [mkFingerprintHash 30 0 0] ->
    hash e = 30 /\ songId e = 0 /\
    exists a, In a [mkPeak 0 0 1; mkPeak 0 3 1] /\ anchorTime e = time a.
Proof.
  apply (createFingerprint_buckets [mkPeak 0 0 1; mkPeak 0 3 1] 0
           (pairAll 0 [mkPeak 0 0 1; mkPeak 0 3 1] ∅) 30).
  - vm_compute. reflexivity.
  - vm_compute. reflexivity.
Defined.

End FingerprintProofs.

(* ------------------------------------------------------------------ *)
(** ** Further properties of the fingerprint hasher *)

Module FingerprintFacts.
Import Peaks Fingerprint FingerprintSpec FingerprintMeasures FingerprintProofs.

Lemma totalEntries_insert_fresh (fp : Fingerprint) h es :
  fp !! h = None ->
  totalEntries (<[h := es]> fp) = (List.length es + totalEntries fp)%nat.
Proof.
  intro Hn. unfold totalEntries. rewrite map_fold_insert_L; [reflexivity | intros; lia | exact Hn].
Qed.

Lemma totalEntries_addHash fp h e :
  totalEntries (addHash fp h e) = S (totalEntries fp).
Proof.
  unfold addHash. destruct (fp !! h) as [es |] eqn:E; cbn [default].
  - rewrite <- (insert_delete_id fp h es E) at 2.
    rewrite <- (insert_delete_eq fp h).
    rewrite !totalEntries_insert_fresh by apply lookup_delete_eq.
    rewrite length_app. simpl. lia.
  - rewrite totalEntries_insert_fresh by exact E. reflexivity.
Qed.

Lemma size_le_totalEntries (fp : Fingerprint) :
  (forall h es, fp !! h = Some es -> es <> []) ->
  (size fp <= totalEntries fp)%nat.
Proof.
  induction fp as [| h es m Hn IH] using map_ind; intro Hne.
  - rewrite map_size_empty. lia.
  - rewrite map_size_insert_None by exact Hn.
    rewrite totalEntries_insert_fresh by exact Hn.
    assert (es <> []) by (apply (Hne h); apply lookup_insert_eq).
    destruct es as [| x xs]; [congruence |]. simpl.
    assert (size m <= totalEntries m)%nat; [| lia].
    apply IH. intros h' es' H'. apply (Hne h').
    rewrite lookup_insert_ne; [exact H' | congruence].
Qed.

Lemma scanTargets_totalEntries sid anchor targets : forall cnt fp,
  (totalEntries (scanTargets sid anchor cnt targets fp) <=
   totalEntries fp + Nat.min (5 - cnt) (List.length targets))%nat.
Proof.
  induction targets as [| t rest IH]; intros cnt fp; cbn [scanTargets List.length]; [lia |].
  destruct (cnt <? 5)%nat eqn:Hc; [| lia].
  apply Nat.ltb_lt in Hc.
  destruct (Qltb _ (1 # 2)); [specialize (IH cnt fp); lia |].
  destruct (Qltb 3 _); [lia |].
  destruct (Qltb 30 _); [specialize (IH cnt fp); lia |].
  specialize (IH (S cnt) (addHash fp (pairHash anchor t)
                            (mkFingerprintHash (pairHash anchor t) (time anchor) sid))).
  rewrite totalEntries_addHash in IH. lia.
Qed.

Lemma pairAll_totalEntries sid peaks : forall fp,
  (totalEntries (pairAll sid peaks fp) <= totalEntries fp + 5 * (List.length peaks - 1))%nat.
Proof.
  induction peaks as [| a rest IH]; intro fp; cbn [pairAll List.length]; [lia |].
  specialize (IH (scanTargets sid a 0 rest fp)).
  pose proof (scanTargets_totalEntries sid a rest 0 fp).
  destruct rest as [| b rest']; cbn [List.length] in *; lia.
Qed.

(** A successful [createFingerprint] stores at most five entries
    per anchor and none for the last peak: with [n] peaks there are at
    most [5 * (n - 1)] entries, and at least as many entries as distinct
    hashes. *)
Lemma createFingerprint_entry_bound peaks sid m :
  createFingerprint peaks sid = Success m ->
  (size m <= totalEntries m <= 5 * (List.length peaks - 1))%nat.
Proof.
  intro H. pose proof (createFingerprint_consistent _ _ _ H) as Hc.
  apply createFingerprint_success in H as (_ & _ & -> & _). split.
  - apply size_le_totalEntries. intros h es E. exact (proj1 (Hc h es E)).
  - pose proof (pairAll_totalEntries sid peaks ∅) as Hb.
    unfold totalEntries at 2 in Hb. rewrite map_fold_empty in Hb. lia.
Qed.

Lemma createFingerprint_entry_bound_witness :
  let peaks := [mkPeak 10 0 1; mkPeak 12 1 1; mkPeak 14 2 1] in
  createFingerprint peaks 7 = Success (pairAll 7 peaks ∅) /\
  (size (pairAll 7 peaks ∅) <= totalEntries (pairAll 7 peaks ∅)
     <= 5 * (List.length peaks - 1))%nat.
Proof.
  cbv zeta. split; [vm_compute; reflexivity |].
  apply (createFingerprint_entry_bound [mkPeak 10 0 1; mkPeak 12 1 1; mkPeak 14 2 1] 7).
  vm_compute. reflexivity.
Defined.

(** Entries lie in the target zone. *)

Lemma Qltb_false a b : Qltb a b = false -> (b <= a)%Q.
Proof. unfold Qltb. intro H. apply negb_false_iff, Qle_bool_iff in H. exact H. Qed.

Lemma zoneOrdered_empty sid peaks : zoneOrdered sid peaks ∅.
Proof. intros h es e H. rewrite lookup_empty in H. discriminate. Qed.

Lemma zoneOrdered_scanTargets sid peaks anchor targets :
  (forall t, In t targets -> exists l1 l2 l3, peaks = l1 ++ anchor :: l2 ++ t :: l3) ->
  forall cnt fp, zoneOrdered sid peaks fp ->
  zoneOrdered sid peaks (scanTargets sid anchor cnt targets fp).
Proof.
  induction targets as [| t rest IH]; intros Hpos cnt fp Hz; cbn [scanTargets]; [exact Hz |].
  assert (Hr : forall t', In t' rest -> exists l1 l2 l3, peaks = l1 ++ anchor :: l2 ++ t' :: l3)
    by (intros t' Ht'; apply Hpos; right; exact Ht').
  destruct (cnt <? 5)%nat; [| exact Hz].
  destruct (Qltb (timeDelta anchor t) (1 # 2)) eqn:E1; [apply IH; auto |].
  destruct (Qltb 3 (timeDelta anchor t)) eqn:E2; [exact Hz |].
  destruct (Qltb 30 (freqDelta anchor t)) eqn:E3; [apply IH; auto |].
  apply IH; [exact Hr |].
  apply Qltb_false in E1, E2, E3.
  intros h es e Hl He. unfold addHash in Hl.
  destruct (decide (h = pairHash anchor t)) as [-> | Hne].
  - rewrite lookup_insert_eq in Hl. injection Hl as <-.
    apply in_app_or in He as [He | [<- | []]].
    + destruct (fp !! pairHash anchor t) as [es0 |] eqn:E; [| contradiction].
      exact (Hz _ _ _ E He).
    + destruct (Hpos t (or_introl eq_refl)) as (l1 & l2 & l3 & Hp).
      exists anchor, t, l1, l2, l3. cbn [anchorTime songId].
      repeat split; try assumption; reflexivity.
  - rewrite lookup_insert_ne in Hl by congruence. exact (Hz _ _ _ Hl He).
Qed.

Lemma zoneOrdered_pairAll sid peaks : forall ps pre fp,
  peaks = pre ++ ps -> zoneOrdered sid peaks fp ->
  zoneOrdered sid peaks (pairAll sid ps fp).
Proof.
  induction ps as [| a rest IH]; intros pre fp Hp Hz; cbn [pairAll]; [exact Hz |].
  apply (IH (pre ++ [a])); [rewrite <- app_assoc; exact Hp |].
  apply zoneOrdered_scanTargets; [| exact Hz].
  intros t Ht. apply in_split in Ht as (l2 & l3 & ->).
  exists pre, l2, l3. exact Hp.
Qed.

Lemma trunc_between x lo hi : 0 <= lo ->
  (inject_Z lo <= x <= inject_Z hi)%Q -> lo <= trunc x <= hi.
Proof.
  intros Hlo [H1 H2]. unfold trunc.
  assert (Qle_bool 0 x = true) as ->.
  { apply Qle_bool_iff. apply Qle_trans with (inject_Z lo); [| exact H1].
    change 0%Q with (inject_Z 0). rewrite <- Zle_Qle. exact Hlo. }
  split.
  - rewrite <- (Qfloor_Z lo). apply Qfloor_resp_le. exact H1.
  - rewrite <- (Qfloor_Z hi). apply Qfloor_resp_le. exact H2.
Qed.

Lemma time_bucket_range a t :
  ((1 # 2) <= timeDelta a t <= 3)%Q ->
  5 <= pairHash a t mod 2 ^ 12 <= 30.
Proof.
  intro Hd. destruct (pairHash_fields a t) as (_ & _ & _ & ->).
  assert (Hb : 5 <= trunc (fl32 (timeDelta a t * 10)) <= 30).
  { apply trunc_between; [lia |]. split.
    - apply Qle_trans with (fl32 5); [apply Qle_bool_iff; vm_compute; reflexivity |].
      apply fl32_mono_nonneg; lra.
    - apply Qle_trans with (fl32 30); [| apply Qle_bool_iff; vm_compute; reflexivity].
      apply fl32_mono_nonneg; [| lra].
      apply Qmult_le_0_compat; lra. }
  rewrite Z.mod_small; lia.
Qed.

(** Every entry of a successful [createFingerprint] comes from an
    anchor that stands before its target in [peaks], with
    [0.5 <= timeDelta <= 3.0] and [freqDelta <= 30]; so the 12 low bits of
    every hash lie between 5 and 30. *)
Lemma createFingerprint_zone peaks sid m h es e :
  createFingerprint peaks sid = Success m -> m !! h = Some es -> In e es ->
  (exists a t l1 l2 l3, peaks = l1 ++ a :: l2 ++ t :: l3 /\
     h = pairHash a t /\ anchorTime e = time a /\ songId e = sid /\
     ((1 # 2) <= timeDelta a t <= 3)%Q /\ (freqDelta a t <= 30)%Q) /\
  5 <= h mod 2 ^ 12 <= 30.
Proof.
  intros H Hl He. apply createFingerprint_success in H as (_ & _ & -> & _).
  assert (Hz : zoneOrdered sid peaks (pairAll sid peaks ∅)).
  { apply (zoneOrdered_pairAll sid peaks peaks []); [reflexivity | apply zoneOrdered_empty]. }
  destruct (Hz h es e Hl He) as (a & t & l1 & l2 & l3 & Hp & Hh & Ha & Hs & Ht & Hf).
  split; [exists a, t, l1, l2, l3; exact (conj Hp (conj Hh (conj Ha (conj Hs (conj Ht Hf))))) |].
  rewrite Hh. apply time_bucket_range. exact Ht.
Qed.

Lemma createFingerprint_zone_witness :
  let a := mkPeak 10 0 1 in
  let t := mkPeak 12 1 1 in
  let e := mkFingerprintHash (pairHash a t) (time a) 7 in
  (exists a' t' l1 l2 l3, [a; t] = l1 ++ a' :: l2 ++ t' :: l3 /\
     pairHash a t = pairHash a' t' /\ anchorTime e = time a' /\ songId e = 7 /\
     ((1 # 2) <= timeDelta a' t' <= 3)%Q /\ (freqDelta a' t' <= 30)%Q) /\
  5 <= pairHash a t mod 2 ^ 12 <= 30.
Proof.
  cbv zeta.
  apply (createFingerprint_zone [mkPeak 10 0 1; mkPeak 12 1 1] 7
           (pairAll 7 [mkPeak 10 0 1; mkPeak 12 1 1] ∅)
           (pairHash (mkPeak 10 0 1) (mkPeak 12 1 1))
           [mkFingerprintHash (pairHash (mkPeak 10 0 1) (mkPeak 12 1 1)) (time (mkPeak 10 0 1)) 7]).
  - vm_compute. reflexivity.
  - vm_compute. reflexivity.
  - simpl. left. reflexivity.
Defined.

(** Pairs need a time gap of at least 0.5: peaks that all share one time
    value never pair. *)
Lemma scanTargets_same_time sid anchor targets : forall cnt fp,
  (forall t, In t targets -> time t = time anchor) ->
  scanTargets sid anchor cnt targets fp = fp.
Proof.
  induction targets as [| t rest IH]; intros cnt fp Ht; cbn [scanTargets]; [reflexivity |].
  destruct (cnt <? 5)%nat; [| reflexivity].
  assert (Hd : Qltb (timeDelta anchor t) (1 # 2) = true).
  { unfold timeDelta. rewrite (Ht t (or_introl eq_refl)).
    rewrite (fl32_compat (time anchor - time anchor) 0) by ring.
    vm_compute. reflexivity. }
  rewrite Hd. apply IH. intros t' H'. apply Ht. right. exact H'.
Qed.

Lemma pairAll_same_time sid q ps : forall fp,
  (forall p, In p ps -> time p = q) -> pairAll sid ps fp = fp.
Proof.
  induction ps as [| a rest IH]; intros fp Hq; cbn [pairAll]; [reflexivity |].
  rewrite scanTargets_same_time.
  - apply IH. intros p Hp. apply Hq. right. exact Hp.
  - intros t Ht. rewrite (Hq t (or_intror Ht)), (Hq a (or_introl eq_refl)). reflexivity.
Qed.

(** The pipeline on a spectrogram with a single time window: all
    peaks [extractPeaks] returns have time 0, so no anchor/target pair
    reaches the minimum gap of 0.5 and [createFingerprint] fails with
    "Failed to create any fingerprint hashes". *)
Lemma single_window_never_fingerprints s ps sid :
  extractPeaks s = Success ps -> List.length (hd [] s) = 1%nat -> 0 <= sid ->
  createFingerprint ps sid = Failure "Failed to create any fingerprint hashes".
Proof.
  intros H Hw Hs.
  destruct (PeaksProofs.extractPeaks_success _ _ H) as (row0 & rest & -> & _ & _ & Hps & Hne).
  cbn [hd] in Hw. rewrite Hw in Hps.
  assert (Htime : forall p, In p ps -> time p = fl32 (inject_Z 0)).
  { intros p Hp. rewrite Hps, PeaksProofs.collectPeaks_flat_map in Hp.
    apply in_flat_map in Hp as (t & Ht & Hp). apply in_seq in Ht.
    change (Z.to_nat (u32 (Z.of_nat 1))) with 1%nat in Ht.
    replace t with 0%nat in Hp by lia. exact (PeaksProofs.columnPeaks_time _ _ _ _ Hp). }
  unfold createFingerprint. destruct ps as [| p ps']; [congruence |].
  assert ((sid <? 0) = false) as -> by (apply Z.ltb_ge; exact Hs).
  rewrite (pairAll_same_time sid (fl32 (inject_Z 0)) (p :: ps') ∅ Htime).
  reflexivity.
Qed.

Lemma single_window_never_fingerprints_witness :
  let s := [[1%Q]; [0%Q]; [0%Q]; [5%Q]; [0%Q]; [0%Q]; [0%Q]; [0%Q]; [0%Q]; [0%Q]] in
  extractPeaks s = Success (collectPeaks s 10 1) /\
  createFingerprint (collectPeaks s 10 1) 0 =
    Failure "Failed to create any fingerprint hashes".
Proof.
  cbv zeta. split; [vm_compute; reflexivity |].
  apply (single_window_never_fingerprints
           [[1%Q]; [0%Q]; [0%Q]; [5%Q]; [0%Q]; [0%Q]; [0%Q]; [0%Q]; [0%Q]; [0%Q]]).
  - vm_compute. reflexivity.
  - reflexivity.
  - lia.
Defined.



(** Bucket order: entries are appended in anchor order. *)
Lemma scanTargets_bucket_order sid anchor targets (l : list Peak) :
  (forall p, In p l -> (time anchor <= time p)%Q) ->
  forall cnt (fp : Fingerprint),
  (forall h es, fp !! h = Some es ->
     StronglySorted (fun e e' => (anchorTime e <= anchorTime e')%Q) es /\
     forall e, In e es -> (anchorTime e <= time anchor)%Q /\
                          forall p, In p l -> (anchorTime e <= time p)%Q) ->
  forall h es, scanTargets sid anchor cnt targets fp !! h = Some es ->
     StronglySorted (fun e e' => (anchorTime e <= anchorTime e')%Q) es /\
     forall e, In e es -> (anchorTime e <= time anchor)%Q /\
                          forall p, In p l -> (anchorTime e <= time p)%Q.
Proof.
  intros Hl. induction targets as [| t rest IH]; intros cnt fp Hfp; cbn [scanTargets];
    [exact Hfp |].
  destruct (cnt <? 5)%nat; [| exact Hfp].
  destruct (Qltb _ (1 # 2)); [apply IH; exact Hfp |].
  destruct (Qltb 3 _); [exact Hfp |].
  destruct (Qltb 30 _); [apply IH; exact Hfp |].
  apply IH. intros h es Hh. unfold addHash in Hh.
  destruct (decide (h = pairHash anchor t)) as [-> | Hne].
  - rewrite lookup_insert_eq in Hh. injection Hh as <-.
    destruct (fp !! pairHash anchor t) as [es0 |] eqn:E; cbn [default].
    + destruct (Hfp _ _ E) as [Hs Hb]. split.
      * apply PeaksProofs.StronglySorted_app; [exact Hs | repeat constructor |].
        intros x y Hx [<- | []]. exact (proj1 (Hb x Hx)).
      * intros e He. apply in_app_or in He as [He | [<- | []]]; [exact (Hb e He) |].
        cbn [anchorTime]. split; [apply Qle_refl | exact Hl].
    + split; [repeat constructor |].
      intros e [<- | []]. cbn [anchorTime]. split; [apply Qle_refl | exact Hl].
  - rewrite lookup_insert_ne in Hh by congruence. exact (Hfp _ _ Hh).
Qed.

Lemma pairAll_bucket_order sid (ps : list Peak) :
  StronglySorted (fun p p' => (time p <= time p')%Q) ps ->
  forall (fp : Fingerprint),
  (forall h es, fp !! h = Some es ->
     StronglySorted (fun e e' => (anchorTime e <= anchorTime e')%Q) es /\
     forall e, In e es -> forall p, In p ps -> (anchorTime e <= time p)%Q) ->
  forall h es, pairAll sid ps fp !! h = Some es ->
     StronglySorted (fun e e' => (anchorTime e <= anchorTime e')%Q) es.
Proof.
  induction ps as [| a rest IH]; intros Hs fp Hfp h es Hh; cbn [pairAll] in Hh.
  - exact (proj1 (Hfp h es Hh)).
  - apply StronglySorted_inv in Hs as [Hs Ha].
    rewrite List.Forall_forall in Ha.
    assert (Hfp' : forall h0 es0, fp !! h0 = Some es0 ->
      StronglySorted (fun e e' => (anchorTime e <= anchorTime e')%Q) es0 /\
      forall e, In e es0 -> (anchorTime e <= time a)%Q /\
                            forall p, In p rest -> (anchorTime e <= time p)%Q).
    { intros h0 es0 H0. destruct (Hfp h0 es0 H0) as [Hs0 Hb0]. split; [exact Hs0 |].
      intros e He. split; [apply Hb0; [exact He | left; reflexivity] |].
      intros p Hp. apply Hb0; [exact He | right; exact Hp]. }
    apply (IH Hs (scanTargets sid a 0 rest fp)) with h; [| exact Hh].
    intros h' es' Hh'.
    destruct (scanTargets_bucket_order sid a rest rest Ha 0 fp Hfp' h' es' Hh')
      as [Hs' Hb'].
    split; [exact Hs' |].
    intros e He p Hp. exact (proj2 (Hb' e He) p Hp).
Qed.

(** When the peaks come sorted by time (as [extractPeaks] returns
    them), every bucket of a successful [createFingerprint] lists its
    entries in non-decreasing anchor time. *)
Lemma createFingerprint_bucket_order peaks sid m h es :
  StronglySorted (fun p p' => (time p <= time p')%Q) peaks ->
  createFingerprint peaks sid = Success m -> m !! h = Some es ->
  StronglySorted (fun e e' => (anchorTime e <= anchorTime e')%Q) es.
Proof.
  intros Hs H Hh. apply createFingerprint_success in H as (_ & _ & -> & _).
  apply (pairAll_bucket_order sid peaks Hs ∅) with h; [| exact Hh].
  intros h' es' H'. rewrite lookup_empty in H'. discriminate.
Qed.


Lemma createFingerprint_bucket_order_witness :
  let peaks := [mkPeak 10 0 1; mkPeak 12 1 1; mkPeak 10 2 1; mkPeak 12 3 1] in
  let h := pairHash (mkPeak 10 0 1) (mkPeak 12 1 1) in
  let es := [mkFingerprintHash h 0 7; mkFingerprintHash h 2 7] in
  createFingerprint peaks 7 = Success (pairAll 7 peaks ∅) /\
  pairAll 7 peaks ∅ !! h = Some es /\
  StronglySorted (fun e e' => (anchorTime e <= anchorTime e')%Q) es.
Proof.
  cbv zeta. split; [vm_compute; reflexivity |]. split; [vm_compute; reflexivity |].
  apply (createFingerprint_bucket_order
           [mkPeak 10 0 1; mkPeak 12 1 1; mkPeak 10 2 1; mkPeak 12 3 1] 7
           (pairAll 7 [mkPeak 10 0 1; mkPeak 12 1 1; mkPeak 10 2 1; mkPeak 12 3 1] ∅)
           (pairHash (mkPeak 10 0 1) (mkPeak 12 1 1))).
  - repeat constructor; vm_compute; discriminate.
  - vm_compute. reflexivity.
  - vm_compute. reflexivity.
Defined.

End FingerprintFacts.

(* ------------------------------------------------------------------ *)
(** ** Further properties of peak extraction *)

Module PeaksFacts.
Import Peaks PeaksProofs.

Lemma bandStep_fold_pos s t bins : forall mp found,
  let r := fold_left (bandStep s t) bins (mp, found) in
  snd r = true -> found = true \/ (magnitude mp < magnitude (fst r))%Q.
Proof.
  induction bins as [| g rest IH]; intros mp found; cbn zeta; cbn [fold_left].
  - intro H. left. exact H.
  - change (bandStep s t (mp, found) g) with
      (if Qltb (magnitude mp) (cell s g t)
       then (mkPeak (fl32 (inject_Z g)) (time mp) (cell s g t), true)
       else (mp, found)).
    destruct (Qltb (magnitude mp) (cell s g t)) eqn:Hlt.
    + unfold Qltb in Hlt. apply negb_true_iff, Qle_bool_false in Hlt.
      intros _. right.
      pose proof (bandStep_fold s t rest (mkPeak (fl32 (inject_Z g)) (time mp) (cell s g t)) true)
        as (_ & Hm & _). simpl in Hm. lra.
    + apply IH.
Qed.

Lemma bandMax_pos s n t band p :
  bandMax s n t band = Some p -> (0 < magnitude p)%Q.
Proof.
  unfold bandMax.
  pose proof (bandStep_fold_pos s t (bandBins n band) (mkPeak 0 (fl32 (inject_Z t)) 0) false)
    as Hp.
  destruct (fold_left (bandStep s t) (bandBins n band) _) as [mp found].
  simpl in Hp. destruct found; [| discriminate].
  intro H. injection H as <-. destruct (Hp eq_refl) as [H | H]; [discriminate | exact H].
Qed.

Lemma fl64_nonneg x : (0 <= x)%Q -> (0 <= fl64 x)%Q.
Proof.
  intro H. unfold fl64, round_fmt.
  assert (Qle_bool 0 x = true) as -> by (apply Qle_bool_iff; exact H).
  apply round_pos_nonneg.
Qed.

Lemma trunc_nonneg x : (0 <= x)%Q -> 0 <= trunc x.
Proof.
  intro H. unfold trunc.
  assert (Qle_bool 0 x = true) as -> by (apply Qle_bool_iff; exact H).
  rewrite <- (Qfloor_Z 0). apply Qfloor_resp_le. exact H.
Qed.

Lemma scaled_nonneg n c : 0 <= n -> (0 <= c)%Q -> 0 <= scaled n c.
Proof.
  intros Hn Hc. unfold scaled. apply trunc_nonneg, fl64_nonneg.
  apply Qmult_le_0_compat; [| apply fl64_nonneg; exact Hc].
  change 0%Q with (inject_Z 0). rewrite <- Zle_Qle. exact Hn.
Qed.

Lemma freqBands_lo_nonneg n lo hi :
  0 <= n -> In (lo, hi) (freqBands n) -> 0 <= lo.
Proof.
  intros Hn Hin. unfold freqBands in Hin.
  repeat (destruct Hin as [Heq | Hin]; [injection Heq as <- <-;
    first [lia | apply scaled_nonneg; [exact Hn | lra]] |]).
  contradiction.
Qed.

Lemma nth_error_of_nth_pos (row : list Q) i :
  (0 < nth i row 0%Q)%Q -> nth_error row i = Some (nth i row 0%Q).
Proof.
  intro H. destruct (Nat.lt_ge_cases i (List.length row)) as [Hl | Hl].
  - apply nth_error_nth'. exact Hl.
  - rewrite nth_overflow in H by exact Hl. lra.
Qed.

(** Where a peak of a successful call comes from. *)
Lemma extractPeaks_peak_cell s ps p :
  extractPeaks s = Success ps -> In p ps ->
  (0 < magnitude p)%Q /\
  exists f t row, nth_error s f = Some row /\ nth_error row t = Some (magnitude p) /\
    frequency p = fl32 (inject_Z (Z.of_nat f)) /\ time p = fl32 (inject_Z (Z.of_nat t)).
Proof.
  intros H Hp.
  destruct (extractPeaks_success _ _ H) as (row0 & rest & Hs & _ & _ & Hps & _).
  rewrite Hps, collectPeaks_flat_map in Hp.
  apply in_flat_map in Hp as (t & _ & Hp).
  apply In_columnPeaks in Hp as [Hc _].
  apply In_columnCandidates in Hc as ([lo hi] & Hb & Hm).
  pose proof (bandMax_pos _ _ _ _ _ Hm) as Hpos.
  destruct (bandMax_spec _ _ _ _ _ Hm) as (Htime & f & Hf & Hfr & Hmg & _).
  simpl in Hf.
  assert (Hlo : 0 <= lo) by (eapply freqBands_lo_nonneg; [apply u32_nonneg | exact Hb]).
  split; [exact Hpos |].
  exists (Z.to_nat f), t, (nth (Z.to_nat f) s []).
  unfold cell in Hmg. rewrite Hmg in Hpos |- *.
  rewrite Z2Nat.id by lia. rewrite Nat2Z.id in Hpos, Hmg |- *.
  split; [| split; [apply nth_error_of_nth_pos; exact Hpos | split; assumption]].
  apply nth_error_nth'. destruct (Nat.lt_ge_cases (Z.to_nat f) (List.length s)) as [Hl | Hl];
    [exact Hl |].
  rewrite (nth_overflow s [] Hl) in Hpos. destruct t; simpl in Hpos; lra.
Qed.


Lemma rne_int m : rne (inject_Z m) = m.
Proof.
  apply Z.le_antisymm; [apply rne_le | apply rne_ge]; apply Qle_refl.
Qed.

Lemma fl32_int_exact k : 0 <= k < 2 ^ 24 -> (fl32 (inject_Z k) == inject_Z k)%Q.
Proof.
  intros [H0 H1]. unfold fl32, round_fmt.
  assert (Qle_bool 0 (inject_Z k) = true) as ->.
  { apply Qle_bool_iff. change 0%Q with (inject_Z 0). rewrite <- Zle_Qle. exact H0. }
  unfold round_pos.
  destruct (Qle_bool (inject_Z k) 0) eqn:Hk.
  - apply Qle_bool_iff in Hk. change 0%Q with (inject_Z 0) in Hk.
    rewrite <- Zle_Qle in Hk. assert (k = 0) as -> by lia. reflexivity.
  - apply Qle_bool_false in Hk.
    pose proof (binade_spec _ Hk) as [Hb1 _].
    assert (Hb0 : 0 <= binade (inject_Z k)).
    { replace 0 with (binade (inject_Z 1)) at 1 by reflexivity.
      apply binade_mono; [reflexivity |].
      change 0%Q with (inject_Z 0) in Hk. rewrite <- Zlt_Qlt in Hk.
      rewrite <- Zle_Qle. lia. }
    assert (Hb23 : binade (inject_Z k) <= 23).
    { destruct (Z.le_gt_cases (binade (inject_Z k)) 23) as [Hc | Hc]; [exact Hc |].
      exfalso. assert (Hp : (pow2 24 <= pow2 (binade (inject_Z k)))%Q) by (apply pow2_le; lia).
      rewrite pow2_Z in Hp by lia.
      assert (Hq : (inject_Z (2 ^ 24) <= inject_Z k)%Q) by lra.
      rewrite <- Zle_Qle in Hq. lia. }
    unfold ulp_exp.
    set (d := 23 - binade (inject_Z k)).
    replace (Z.max (binade (inject_Z k) - (24 - 1)) (-149)) with (- d) by (unfold d; lia).
    assert (Hd : (pow2 (- d) == / inject_Z (2 ^ d))%Q).
    { unfold pow2. rewrite Qpower_opp. rewrite <- pow2_Z by lia. reflexivity. }
    assert (Hnz : ~ (inject_Z (2 ^ d) == 0)%Q).
    { change 0%Q with (inject_Z 0). rewrite inject_Z_injective.
      pose proof (Z.pow_pos_nonneg 2 d). lia. }
    rewrite (rne_compat _ (inject_Z (k * 2 ^ d))).
    + rewrite rne_int, Hd, inject_Z_mult. field. exact Hnz.
    + rewrite Hd, inject_Z_mult. field. exact Hnz.
Qed.

Lemma StronglySorted_filter {A} (R : A -> A -> Prop) (f : A -> bool) l :
  StronglySorted R l -> StronglySorted R (List.filter f l).
Proof.
  induction l as [| a l IH]; intro H; simpl; [constructor |].
  apply StronglySorted_inv in H as [Hs Hf]. destruct (f a); [| exact (IH Hs)].
  constructor; [exact (IH Hs) |].
  apply List.Forall_forall. intros y Hy. apply filter_In in Hy as [Hy _].
  exact (proj1 (List.Forall_forall _ _) Hf y Hy).
Qed.

Lemma StronglySorted_weaken {A} (R R' : A -> A -> Prop) l :
  StronglySorted R l -> (forall x y, In x l -> In y l -> R x y -> R' x y) ->
  StronglySorted R' l.
Proof.
  induction l as [| a l IH]; intros H Himp; [constructor |].
  apply StronglySorted_inv in H as [Hs Hf]. constructor.
  - apply IH; [exact Hs |]. intros x y Hx Hy. apply Himp; right; assumption.
  - apply List.Forall_forall. intros y Hy. apply Himp; [left; reflexivity | right; exact Hy |].
    exact (proj1 (List.Forall_forall _ _) Hf y Hy).
Qed.

Lemma StronglySorted_omap {A B} (g : A -> option B) (R : B -> B -> Prop) (l : list A) :
  (forall i j a a' x y, (i < j)%nat -> l !! i = Some a -> l !! j = Some a' ->
     g a = Some x -> g a' = Some y -> R x y) ->
  StronglySorted R (omap g l).
Proof.
  induction l as [| a l IH]; intro H; [constructor |].
  change (omap g (a :: l)) with (match g a with Some y => y :: omap g l | None => omap g l end).
  assert (IH' : StronglySorted R (omap g l)).
  { apply IH. intros i j b b' x y Hij Hi Hj Hx Hy.
    apply (H (S i) (S j) b b' x y); [lia | exact Hi | exact Hj | exact Hx | exact Hy]. }
  destruct (g a) as [x |] eqn:Ex; [| exact IH'].
  constructor; [exact IH' |].
  apply List.Forall_forall. intros y Hy.
  apply list_elem_of_In, list_elem_of_omap in Hy as (a' & Ha' & Hy).
  apply list_elem_of_lookup_1 in Ha' as (j & Hj).
  apply (H 0%nat (S j) a a' x y); [lia | reflexivity | exact Hj | exact Ex | exact Hy].
Qed.

(** Consecutive bands share their bounds, so valid bands are ordered. *)
Lemma freqBands_chain n :
  validateBands n (freqBands n) = None ->
  forall i j b b', (i < j)%nat -> freqBands n !! i = Some b -> freqBands n !! j = Some b' ->
  snd b <= fst b'.
Proof.
  intros Hv i j b b' Hij Hi Hj.
  pose proof (validateBands_none _ _ Hv) as V. unfold freqBands in V, Hi, Hj.
  set (x1 := scaled n (1 # 10)) in *. set (x2 := scaled n (1 # 4)) in *.
  set (x3 := scaled n (2 # 5)) in *. set (x4 := scaled n (3 # 5)) in *.
  set (x5 := scaled n (4 # 5)) in *.
  pose proof (V 0 x1 ltac:(apply in_eq)) as V1.
  pose proof (V x1 x2 ltac:(do 1 apply in_cons; apply in_eq)) as V2.
  pose proof (V x2 x3 ltac:(do 2 apply in_cons; apply in_eq)) as V3.
  pose proof (V x3 x4 ltac:(do 3 apply in_cons; apply in_eq)) as V4.
  pose proof (V x4 x5 ltac:(do 4 apply in_cons; apply in_eq)) as V5.
  pose proof (V x5 n ltac:(do 5 apply in_cons; apply in_eq)) as V6.
  destruct i as [|[|[|[|[|[|i]]]]]]; destruct j as [|[|[|[|[|[|j]]]]]];
    cbn in Hi, Hj; try (exfalso; lia); try discriminate Hi; try discriminate Hj;
    injection Hi as <-; injection Hj as <-; cbn [fst snd]; lia.
Qed.

Lemma columnPeaks_freq_sorted s n t :
  0 <= n -> validateBands n (freqBands n) = None ->
  StronglySorted (fun p p' => (frequency p <= frequency p')%Q) (columnPeaks s n t).
Proof.
  intros Hn Hv.
  assert (Hc : StronglySorted (fun p p' => (frequency p <= frequency p')%Q)
                 (columnCandidates s n t)).
  { apply StronglySorted_omap. intros i j b b' x y Hij Hi Hj Hx Hy.
    pose proof (freqBands_chain n Hv i j b b' Hij Hi Hj) as Hch.
    destruct (bandMax_spec _ _ _ _ _ Hx) as (_ & f & Hf & Hfx & _).
    destruct (bandMax_spec _ _ _ _ _ Hy) as (_ & f' & Hf' & Hfy & _).
    destruct b as [lo hi].
    assert (Hlo : 0 <= lo).
    { apply (freqBands_lo_nonneg n lo hi Hn). apply list_elem_of_In.
      exact (list_elem_of_lookup_2 _ _ _ Hi). }
    cbn [fst snd] in *. rewrite Hfx, Hfy. apply fl32_mono_nonneg.
    - change 0%Q with (inject_Z 0). rewrite <- Zle_Qle. lia.
    - rewrite <- Zle_Qle. lia. }
  unfold columnPeaks. fold (columnCandidates s n t).
  destruct (columnCandidates s n t) as [| c cs]; [constructor |].
  apply StronglySorted_filter. exact Hc.
Qed.

Lemma fl32_int_lt a b : 0 <= a -> a < b -> b < 2 ^ 24 ->
  (fl32 (inject_Z a) < fl32 (inject_Z b))%Q.
Proof.
  intros Ha Hab Hb. rewrite !fl32_int_exact by lia. rewrite <- Zlt_Qlt. exact Hab.
Qed.

Lemma columns_sorted s n k : forall a, 0 <= n -> validateBands n (freqBands n) = None ->
  Z.of_nat (a + k) <= 2 ^ 24 ->
  StronglySorted (fun p p' => (time p < time p')%Q \/
                              (time p == time p' /\ frequency p <= frequency p')%Q)
    (flat_map (fun t => columnPeaks s n (Z.of_nat t)) (seq a k)).
Proof.
  induction k as [| k IH]; intros a Hn Hv Hk; simpl; [constructor |].
  apply StronglySorted_app; [| apply IH; [exact Hn | exact Hv | lia] |].
  - apply (StronglySorted_weaken _ _ _ (columnPeaks_freq_sorted s n (Z.of_nat a) Hn Hv)).
    intros x y Hx Hy Hxy. right. split; [| exact Hxy].
    rewrite (columnPeaks_time _ _ _ _ Hx), (columnPeaks_time _ _ _ _ Hy). reflexivity.
  - intros x y Hx Hy. apply in_flat_map in Hy as (b & Hb & Hy). apply in_seq in Hb.
    left. rewrite (columnPeaks_time _ _ _ _ Hx), (columnPeaks_time _ _ _ _ Hy).
    apply fl32_int_lt; lia.
Qed.


(** Every peak of a successful [extractPeaks] is an actual cell of
    the spectrogram with a positive value: the bin and window it names are
    in range, and its magnitude is the value stored there. *)
Lemma extractPeaks_positive_cells s ps p :
  extractPeaks s = Success ps -> In p ps ->
  (0 < magnitude p)%Q /\
  exists f t row, nth_error s f = Some row /\ nth_error row t = Some (magnitude p) /\
    frequency p = fl32 (inject_Z (Z.of_nat f)) /\ time p = fl32 (inject_Z (Z.of_nat t)).
Proof. exact (extractPeaks_peak_cell s ps p). Qed.

Lemma extractPeaks_positive_cells_witness :
  let s := [[1%Q]; [2%Q]; [3%Q]; [4%Q]; [5%Q]; [6%Q]; [7%Q]; [8%Q]; [9%Q]; [10%Q]] in
  let p := hd (mkPeak 0 0 0) (collectPeaks s 10 1) in
  (0 < magnitude p)%Q /\
  exists f t row, nth_error s f = Some row /\ nth_error row t = Some (magnitude p) /\
    frequency p = fl32 (inject_Z (Z.of_nat f)) /\ time p = fl32 (inject_Z (Z.of_nat t)).
Proof.
  cbv zeta.
  apply (extractPeaks_positive_cells
           [[1%Q]; [2%Q]; [3%Q]; [4%Q]; [5%Q]; [6%Q]; [7%Q]; [8%Q]; [9%Q]; [10%Q]]
           (collectPeaks [[1%Q]; [2%Q]; [3%Q]; [4%Q]; [5%Q]; [6%Q]; [7%Q]; [8%Q]; [9%Q]; [10%Q]] 10 1)).
  - vm_compute. reflexivity.
  - vm_compute. left. reflexivity.
Defined.

(** A spectrogram with no positive cell (silence) never yields a
    successful [extractPeaks]: no bin beats the initial magnitude 0. *)
Lemma extractPeaks_silence_fails s :
  forallb (forallb (fun x => Qle_bool x 0)) s = true ->
  isSuccess (extractPeaks s) = false.
Proof.
  intro Hs. destruct (extractPeaks s) as [ps | e] eqn:E; [| reflexivity].
  destruct (extractPeaks_success _ _ E) as (_ & _ & _ & _ & _ & _ & Hne).
  destruct ps as [| p ps']; [congruence |].
  destruct (extractPeaks_peak_cell _ _ p E (or_introl eq_refl))
    as (Hpos & f & t & row & Hrow & Hcell & _).
  apply nth_error_In in Hrow, Hcell.
  rewrite forallb_forall in Hs. specialize (Hs row Hrow).
  rewrite forallb_forall in Hs. specialize (Hs _ Hcell).
  apply Qle_bool_iff in Hs. lra.
Qed.

Lemma extractPeaks_silence_fails_witness :
  isSuccess (extractPeaks (repeat [0%Q; (-1)%Q] 10)) = false /\
  extractPeaks (repeat [0%Q; (-1)%Q] 10) =
    Failure "No significant peaks found in spectrogram".
Proof.
  split; [| vm_compute; reflexivity].
  apply extractPeaks_silence_fails. vm_compute. reflexivity.
Defined.

(** The peaks of a successful call are ordered by time and, within
    one time window, by frequency (bands are scanned low to high and valid
    bands are consecutive), as long as the window indices are exact
    floats (at most [2^24] windows). *)
Lemma extractPeaks_time_freq_order s ps :
  extractPeaks s = Success ps -> Z.of_nat (List.length (hd [] s)) <= 2 ^ 24 ->
  StronglySorted (fun p p' => (time p < time p')%Q \/
                              (time p == time p' /\ frequency p <= frequency p')%Q) ps.
Proof.
  intros H Hw.
  destruct (extractPeaks_success _ _ H) as (row0 & rest & Hs & _ & Hv & -> & _).
  rewrite Hs in Hw. cbn [hd] in Hw.
  rewrite collectPeaks_flat_map. apply columns_sorted; [apply u32_nonneg | exact Hv |].
  assert (u32 (Z.of_nat (List.length row0)) <= Z.of_nat (List.length row0)).
  { unfold u32. apply Z.mod_le; lia. }
  pose proof (u32_nonneg (Z.of_nat (List.length row0))). lia.
Qed.

Lemma extractPeaks_time_freq_order_witness :
  let s := [[1%Q; 9%Q]; [2%Q; 0%Q]; [3%Q; 0%Q]; [4%Q; 7%Q]; [5%Q; 0%Q];
            [6%Q; 0%Q]; [7%Q; 0%Q]; [8%Q; 0%Q]; [9%Q; 0%Q]; [10%Q; 1%Q]] in
  StronglySorted (fun p p' => (time p < time p')%Q \/
                              (time p == time p' /\ frequency p <= frequency p')%Q)
    (collectPeaks s 10 2) /\
  List.length (collectPeaks s 10 2) = 5%nat.
Proof.
  cbv zeta. split; [| vm_compute; reflexivity].
  apply (extractPeaks_time_freq_order
           [[1%Q; 9%Q]; [2%Q; 0%Q]; [3%Q; 0%Q]; [4%Q; 7%Q]; [5%Q; 0%Q];
            [6%Q; 0%Q]; [7%Q; 0%Q]; [8%Q; 0%Q]; [9%Q; 0%Q]; [10%Q; 1%Q]]).
  - vm_compute. reflexivity.
  - vm_compute. discriminate.
Defined.

End PeaksFacts.

(* ------------------------------------------------------------------ *)
(** ** Hash matching in the comparison test *)

Module ComparisonFacts.
Import Fingerprint ComparisonTest.

Lemma matchCount_dom (a b : Fingerprint) :
  matchCount a b = Z.of_nat (size (dom a ∩ dom b)).
Proof.
  induction a as [| i x m Hn IH] using map_ind.
  - unfold matchCount. rewrite map_fold_empty, dom_empty_L.
    replace (∅ ∩ dom b) with (∅ : gset Z) by set_solver. rewrite size_empty. reflexivity.
  - unfold matchCount. rewrite map_fold_insert_L; [| | exact Hn].
    2: { intros j1 j2 z1 z2 y _ _ _. destruct (b !! j1), (b !! j2); lia. }
    fold (matchCount m b). rewrite IH, dom_insert_L.
    assert (Hi : i ∉ dom m) by (apply not_elem_of_dom; exact Hn).
    destruct (b !! i) as [y |] eqn:Eb.
    + assert (Hb : i ∈ dom b) by (eapply elem_of_dom_2; exact Eb).
      replace (({[i]} ∪ dom m) ∩ dom b) with ({[i]} ∪ (dom m ∩ dom b)) by set_solver.
      rewrite (size_union {[i]} (dom m ∩ dom b)) by set_solver. rewrite size_singleton. lia.
    + assert (Hb : i ∉ dom b) by (apply not_elem_of_dom; exact Eb).
      replace (({[i]} ∪ dom m) ∩ dom b) with (dom m ∩ dom b) by set_solver.
      reflexivity.
Qed.


(** The test's match count (keys of one fingerprint found in the
    other) is symmetric and never exceeds the smaller of the two sizes. *)
Lemma matchCount_symmetric_bounded a b :
  matchCount a b = matchCount b a /\
  0 <= matchCount a b <= Z.of_nat (Nat.min (size a) (size b)).
Proof.
  rewrite !matchCount_dom. split.
  - f_equal. f_equal. set_solver.
  - split; [lia |].
    assert (Ha : (size (dom a ∩ dom b) <= size (dom a))%nat)
      by (apply subseteq_size; set_solver).
    assert (Hb : (size (dom a ∩ dom b) <= size (dom b))%nat)
      by (apply subseteq_size; set_solver).
    rewrite !size_dom in *. lia.
Qed.

(** The match count of [a] against [b] reaches [size a] exactly
    when every hash of [a] is a key of [b]; in particular a fingerprint
    matches itself fully. *)
Lemma matchCount_full a b :
  (matchCount a b = Z.of_nat (size a) <-> dom a ⊆ dom b) /\
  matchCount a a = Z.of_nat (size a).
Proof.
  assert (Hiff : matchCount a b = Z.of_nat (size a) <-> dom a ⊆ dom b).
  { rewrite matchCount_dom, <- size_dom. split.
    - intro H. destruct (decide (dom a ⊆ dom b)) as [Hs | Hs]; [exact Hs |].
      exfalso. assert (Hlt : (size (dom a ∩ dom b) < size (dom a))%nat).
      { apply subset_size. split; [set_solver |].
        intro Hsub. apply Hs. intros x Hx. apply Hsub in Hx. set_solver. }
      lia.
    - intro Hs. f_equal. f_equal. set_solver. }
  split; [exact Hiff |].
  rewrite matchCount_dom, <- size_dom. f_equal. f_equal. set_solver.
Qed.

End ComparisonFacts.

(* ------------------------------------------------------------------ *)
(** ** Further properties of the spectrogram *)

Module SpectrogramFacts.
Import Spectrogram SpectrogramProofs.

Section Backend.
Variable cos_libm : Q -> Q.
Variable fftw : list (Q * Q) -> FftOutcome.
Variable abs_complex : Q * Q -> Q.

Lemma storeBins_fold_other_column windowSize lo windowIdx out (l : list nat) :
  forall (sp : list (list Q)) (k j : nat),
  j <> Z.to_nat windowIdx ->
  fold_left (fun sp binIdx =>
      let sourceBinIdx := lo + Z.of_nat binIdx in
      if sourceBinIdx <? windowSize / 2 then
        alter (fun row => <[Z.to_nat windowIdx := abs_complex
                  (nth (Z.to_nat sourceBinIdx) out (0%Q, 0%Q))]> row) binIdx sp
      else sp) l sp !! k ≫= (fun row => row !! j) = sp !! k ≫= (fun row => row !! j).
Proof.
  induction l as [| b l IH]; intros sp k j Hj; cbn [fold_left]; [reflexivity |].
  rewrite IH by exact Hj. cbv zeta.
  destruct (lo + Z.of_nat b <? windowSize / 2); [| reflexivity].
  destruct (decide (b = k)) as [-> | Hne].
  - rewrite list_lookup_alter_eq. destruct (sp !! k) as [row |]; [| reflexivity].
    cbn. apply list_lookup_insert_ne. congruence.
  - rewrite list_lookup_alter_ne by exact Hne. reflexivity.
Qed.

Lemma storeBins_fold_cell windowSize lo windowIdx out (k : nat) (l : list nat) :
  lo + Z.of_nat k < windowSize / 2 -> In k l ->
  forall (sp : list (list Q)) (row : list Q), sp !! k = Some row -> (Z.to_nat windowIdx < List.length row)%nat ->
  exists row', fold_left (fun sp binIdx =>
      let sourceBinIdx := lo + Z.of_nat binIdx in
      if sourceBinIdx <? windowSize / 2 then
        alter (fun row => <[Z.to_nat windowIdx := abs_complex
                  (nth (Z.to_nat sourceBinIdx) out (0%Q, 0%Q))]> row) binIdx sp
      else sp) l sp !! k = Some row' /\
    row' !! Z.to_nat windowIdx =
      Some (abs_complex (nth (Z.to_nat (lo + Z.of_nat k)) out (0%Q, 0%Q))).
Proof.
  intros Hk. induction l as [| b l IH]; intros Hin sp row Hrow Hw; [destruct Hin |].
  cbn [fold_left]. cbv zeta.
  destruct (decide (b = k)) as [-> | Hne].
  - assert (Hc : (lo + Z.of_nat k <? windowSize / 2) = true) by (apply Z.ltb_lt; exact Hk).
    rewrite Hc.
    set (v := abs_complex (nth (Z.to_nat (lo + Z.of_nat k)) out (0%Q, 0%Q))).
    assert (Hrow1 : alter (fun row => <[Z.to_nat windowIdx := v]> row) k sp !! k =
                    Some (<[Z.to_nat windowIdx := v]> row))
      by (rewrite list_lookup_alter_eq, Hrow; reflexivity).
    destruct (in_dec Nat.eq_dec k l) as [Hl | Hl].
    + apply (IH Hl _ _ Hrow1). rewrite length_insert. exact Hw.
    + exists (<[Z.to_nat windowIdx := v]> row). split.
      * rewrite <- Hrow1. clear -Hl. revert Hl.
        generalize (alter (fun row => <[Z.to_nat windowIdx := v]> row) k sp). intros sp1 Hl.
        revert sp1. induction l as [| b l IH]; intro sp1; cbn [fold_left]; [reflexivity |].
        cbv zeta. rewrite IH by (intro H; apply Hl; right; exact H).
        destruct (lo + Z.of_nat b <? windowSize / 2); [| reflexivity].
        apply list_lookup_alter_ne. intros ->. apply Hl. left. reflexivity.
      * apply list_lookup_insert_eq. exact Hw.
  - destruct Hin as [Heq | Hin]; [congruence |].
    destruct (lo + Z.of_nat b <? windowSize / 2).
    + apply (IH Hin _ row); [| exact Hw]. rewrite list_lookup_alter_ne by exact Hne. exact Hrow.
    + exact (IH Hin _ row Hrow Hw).
Qed.


Lemma processWindows_other_column samples hw windowSize sh fuel : forall windowIdx sp sp' k j,
  processWindows fftw abs_complex samples hw windowSize sh fuel windowIdx sp = Success sp' ->
  0 <= Z.of_nat j < windowIdx ->
  sp' !! k ≫= (fun row => row !! j) = sp !! k ≫= (fun row => row !! j).
Proof.
  induction fuel as [| fuel IH]; intros windowIdx sp sp' k j H Hj; cbn [processWindows] in H.
  - injection H as <-. reflexivity.
  - destruct (fft fftw _) as [| | out]; try discriminate H.
    rewrite (IH _ _ _ k j H) by lia.
    unfold storeBins. apply storeBins_fold_other_column. lia.
Qed.

Lemma processWindows_cell samples hw windowSize sh fuel :
  forall windowIdx (sp sp' : list (list Q)) L k w out,
  processWindows fftw abs_complex samples hw windowSize sh fuel windowIdx sp = Success sp' ->
  Forall (fun row => List.length row = L) sp -> (k < List.length sp)%nat ->
  0 <= windowIdx <= w -> w < windowIdx + Z.of_nat fuel -> (Z.to_nat w < L)%nat ->
  (k < Z.to_nat (numBins sh))%nat -> minBin sh + Z.of_nat k < windowSize / 2 ->
  fft fftw (windowFrame samples hw windowSize (stepSize sh) w) = FftDone out ->
  exists row, sp' !! k = Some row /\
    row !! Z.to_nat w = Some (abs_complex (nth (Z.to_nat (minBin sh + Z.of_nat k)) out (0%Q, 0%Q))).
Proof.
  induction fuel as [| fuel IH];
    intros windowIdx sp sp' L k w out H Hsp Hk Hw1 Hw2 HwL Hnb Hlo Hfft; [lia |].
  cbn [processWindows] in H.
  destruct (Z.eq_dec w windowIdx) as [-> | Hne].
  - rewrite Hfft in H.
    destruct (lookup_lt_is_Some_2 sp k Hk) as [row Hrow].
    assert (Hlen : List.length row = L) by exact (Forall_lookup_1 _ _ _ _ Hsp Hrow).
    destruct (storeBins_fold_cell windowSize (minBin sh) windowIdx out k (seq 0 (Z.to_nat (numBins sh)))
                Hlo ltac:(apply in_seq; lia) sp row Hrow ltac:(lia)) as (row' & Hrow' & Hcell).
    exists (match sp' !! k with Some r => r | None => [] end).
    assert (Hc : sp' !! k ≫= (fun r => r !! Z.to_nat windowIdx) =
                 Some row' ≫= (fun r => r !! Z.to_nat windowIdx)).
    { rewrite <- Hrow'.
      exact (processWindows_other_column _ _ _ _ _ _ _ _ k (Z.to_nat windowIdx) H
               ltac:(lia)). }
    cbn in Hc. rewrite Hcell in Hc.
    destruct (sp' !! k) as [r |]; [| discriminate Hc]. split; [reflexivity | exact Hc].
  - destruct (fft fftw _) as [| | out0]; try discriminate H.
    destruct (storeBins_shape abs_complex windowSize (minBin sh) (numBins sh) windowIdx out0 sp L Hsp)
      as [Hl Hf].
    apply (IH (windowIdx + 1) _ sp' L k w out H); try assumption; lia.
Qed.

Lemma spectrogramShape_positive numSamples sampleRate windowSize overlap minFreq maxFreq sh :
  spectrogramShape numSamples sampleRate windowSize overlap minFreq maxFreq =
    Some (Success sh) ->
  0 < numWindows sh /\ 2 <= numBins sh.
Proof.
  intro H. pose proof (spectrogramShape_success _ _ _ _ _ _ _ H) as (Hlt & _ & Hnb).
  split; [| lia]. revert H. unfold spectrogramShape.
  repeat match goal with
         | |- context [if ?b then _ else _] => destruct b eqn:?
         | |- context [match ?x with _ => _ end] => destruct x eqn:?
         end; intro H; try discriminate H.
  all: injection H as <-; cbn [numWindows];
    match goal with Hb : (u32 ?z =? 0) = false |- _ =>
      apply Z.eqb_neq in Hb; pose proof (PeaksProofs.u32_nonneg z); lia end.
Qed.

End Backend.

(** In a successful [generateSpectrogram], row [k] (a bin with
    [minBin + k < windowSize / 2]) holds, in column [w], the magnitude of
    bin [minBin + k] of the FFT of window [w]'s tapered frame. *)
Lemma generateSpectrogram_cells cos_libm fftw abs_complex samples sampleRate windowSize
    overlap minFreq maxFreq sp :
  generateSpectrogram cos_libm fftw abs_complex samples sampleRate windowSize
    overlap minFreq maxFreq = Some (Success sp) ->
  exists sh,
    spectrogramShape (Z.of_nat (List.length samples)) sampleRate windowSize
      overlap minFreq maxFreq = Some (Success sh) /\
    forall k w out,
      (k < Z.to_nat (numBins sh))%nat -> minBin sh + Z.of_nat k < windowSize / 2 ->
      0 <= w < numWindows sh ->
      fft fftw (windowFrame samples (createHammingWindow cos_libm windowSize)
                  windowSize (stepSize sh) w) = FftDone out ->
      exists row, sp !! k = Some row /\
        row !! Z.to_nat w =
          Some (abs_complex (nth (Z.to_nat (minBin sh + Z.of_nat k)) out (0%Q, 0%Q))).
Proof.
  intro H. destruct (generateSpectrogram_success _ _ _ _ _ _ _ _ _ _ H) as (sh & Hs & Hp).
  exists sh. split; [exact Hs |]. intros k w out Hk Hlo Hw Hfft.
  apply (processWindows_cell fftw abs_complex _ _ _ _ _ 0 _ _ (Z.to_nat (numWindows sh))
           k w out Hp).
  - apply List.Forall_forall. intros row Hrow. apply repeat_spec in Hrow. subst row.
    apply repeat_length.
  - rewrite repeat_length. exact Hk.
  - lia.
  - lia.
  - lia.
  - exact Hk.
  - exact Hlo.
  - exact Hfft.
Qed.

(** [generateSpectrogram] never reports "Failed to generate
    spectrogram data": a valid shape has at least two rows and one
    window, and the window loop keeps that shape. *)
Lemma generateSpectrogram_never_empty cos_libm fftw abs_complex samples sampleRate windowSize
    overlap minFreq maxFreq :
  generateSpectrogram cos_libm fftw abs_complex samples sampleRate windowSize
    overlap minFreq maxFreq <> Some (Failure "Failed to generate spectrogram data").
Proof.
  unfold generateSpectrogram.
  destruct (spectrogramShape _ _ _ _ _ _) as [[sh | e] |] eqn:Hs; [| | discriminate].
  - destruct (spectrogramShape_positive _ _ _ _ _ _ _ Hs) as [Hnw Hnb].
    destruct (processWindows _ _ _ _ _ _ _ _ _) as [sp0 | e] eqn:Hp.
    + assert (H0 : Forall (fun row => List.length row = Z.to_nat (numWindows sh))
        (repeat (repeat 0%Q (Z.to_nat (numWindows sh))) (Z.to_nat (numBins sh)))).
      { apply List.Forall_forall. intros row Hrow. apply repeat_spec in Hrow. subst row.
        apply repeat_length. }
      destruct (processWindows_shape fftw abs_complex _ _ _ _ _ _ _ _ _ H0 Hp) as [Hl Hf].
      rewrite repeat_length in Hl.
      destruct sp0 as [| row rest]; [cbn in Hl; lia |].
      apply Forall_cons_1 in Hf as [Hrow _].
      destruct row as [| x xs]; [cbn in Hrow; lia |]. discriminate.
    + apply processWindows_failure in Hp as [-> | ->]; discriminate.
  - unfold spectrogramShape in Hs.
    repeat match type of Hs with
           | context [if ?b then _ else _] => destruct b
           | context [match ?x with _ => _ end] => destruct x
           end; try discriminate Hs; injection Hs as <-; discriminate.
Qed.


Lemma generateSpectrogram_cells_witness :
  let cos_libm := fun _ : Q => 0%Q in
  let fftw := fun x => FftDone x in
  let abs_complex := fun z : Q * Q => Qabs (fst z) in
  let samples := [1; 2; 3; 4; 5; 6; 7; 8]%Q in
  let sp := [[9059697 # 16777216; 13589546 # 8388608; 11324621 # 4194304];
             [9059697 # 8388608; 9059697 # 4194304; 13589546 # 4194304]] in
  exists sh,
    spectrogramShape (Z.of_nat (List.length samples)) 8 4 (1 # 2) 0 2 = Some (Success sh) /\
    forall k w out,
      (k < Z.to_nat (numBins sh))%nat -> minBin sh + Z.of_nat k < 4 / 2 ->
      0 <= w < numWindows sh ->
      fft fftw (windowFrame samples (createHammingWindow cos_libm 4) 4 (stepSize sh) w)
        = FftDone out ->
      exists row, sp !! k = Some row /\
        row !! Z.to_nat w =
          Some (abs_complex (nth (Z.to_nat (minBin sh + Z.of_nat k)) out (0%Q, 0%Q))).
Proof.
  cbv zeta.
  apply (generateSpectrogram_cells (fun _ : Q => 0%Q) (fun x => FftDone x)
           (fun z : Q * Q => Qabs (fst z)) [1; 2; 3; 4; 5; 6; 7; 8]%Q 8 4 (1 # 2) 0 2).
  vm_compute. reflexivity.
Defined.

End SpectrogramFacts.

(* ------------------------------------------------------------------ *)
(** ** Frequency bands of large spectrograms *)

Module BandFacts.
Import Peaks PeaksProofs.

(** Relative error of double rounding at or above 1. *)
Lemma fl64_rel x : (1 <= x)%Q ->
  (x - x * pow2 (-52) <= fl64 x)%Q /\ (fl64 x <= x + x * pow2 (-52))%Q.
Proof.
  intro H1. assert (Hx : (0 < x)%Q) by lra.
  unfold fl64, round_fmt.
  assert (Qle_bool 0 x = true) as -> by (apply Qle_bool_iff; lra).
  unfold round_pos.
  assert (Qle_bool x 0 = false) as ->.
  { destruct (Qle_bool x 0) eqn:E; [apply Qle_bool_iff in E; lra | reflexivity]. }
  destruct (binade_spec x Hx) as [Hb1 Hb2].
  assert (Hb0 : 0 <= binade x).
  { destruct (Z.le_gt_cases 0 (binade x)) as [H | H]; [exact H |].
    assert (pow2 (binade x + 1) <= pow2 0)%Q by (apply pow2_le; lia).
    assert (pow2 0 == 1)%Q by reflexivity. lra. }
  assert (Hk : ulp_exp 53 (-1074) x = binade x - 52) by (unfold ulp_exp; lia).
  rewrite Hk. set (P := pow2 (binade x - 52)).
  assert (HP : (0 < P)%Q) by apply pow2_pos.
  assert (HP52 : (P <= x * pow2 (-52))%Q).
  { unfold P. replace (binade x - 52) with (binade x + -52) by lia.
    rewrite pow2_add. apply Qmult_le_compat_r; [exact Hb1 | apply Qlt_le_weak, pow2_pos]. }
  set (s := (x / P)%Q).
  assert (Hs : (s * P == x)%Q) by (unfold s; field; lra).
  pose proof (rne_between s) as [Hr1 Hr2].
  pose proof (Qfloor_le s) as Hf1. pose proof (Qlt_floor s) as Hf2.
  rewrite Zle_Qle in Hr1, Hr2.
  rewrite inject_Z_plus in Hr2, Hf2. change (inject_Z 1) with 1%Q in Hr2, Hf2.
  assert (Hlo : (s - 1 <= inject_Z (rne s))%Q) by lra.
  assert (Hhi : (inject_Z (rne s) <= s + 1)%Q) by lra.
  assert (Hlo' : ((s - 1) * P <= inject_Z (rne s) * P)%Q)
    by (apply Qmult_le_compat_r; lra).
  assert (Hhi' : (inject_Z (rne s) * P <= (s + 1) * P)%Q)
    by (apply Qmult_le_compat_r; lra).
  assert (E1 : ((s - 1) * P == x - P)%Q) by (rewrite <- Hs; ring).
  assert (E2 : ((s + 1) * P == x + P)%Q) by (rewrite <- Hs; ring).
  split; lra.
Qed.

Lemma Qprod_ge1 (N d : Q) : (10 <= N)%Q -> (1 # 10 <= d)%Q -> (1 <= N * d)%Q.
Proof. intros. nra. Qed.

Lemma trunc_nonneg_floor x : (0 <= x)%Q -> trunc x = Qfloor x.
Proof.
  intro H. unfold trunc. assert (Qle_bool 0 x = true) as -> by (apply Qle_bool_iff; exact H).
  reflexivity.
Qed.

Lemma fl64_nonneg' x : (0 <= x)%Q -> (0 <= fl64 x)%Q.
Proof.
  intro H. unfold fl64, round_fmt.
  assert (Qle_bool 0 x = true) as -> by (apply Qle_bool_iff; exact H).
  apply round_pos_nonneg.
Qed.

(** Two band boundaries whose double constants are at least a tenth apart
    (after rounding slack) truncate to different bins once [n >= 10]. *)
Lemma scaled_gap n c1 c2 :
  10 <= n ->
  Qle_bool (1 # 10) (fl64 c1) = true ->
  Qle_bool (1 # 10) (fl64 c2) = true ->
  Qle_bool (1 # 10) (fl64 c2 - fl64 c1 - pow2 (-52) * (fl64 c1 + fl64 c2)) = true ->
  scaled n c1 < scaled n c2.
Proof.
  intros Hn H1 H2 HD. apply Qle_bool_iff in H1, H2, HD.
  unfold scaled.
  set (N := inject_Z n). set (d1 := fl64 c1). set (d2 := fl64 c2). set (e := pow2 (-52)).
  fold d1 d2 e in HD.
  assert (HN : (10 <= N)%Q) by (unfold N; change 10%Q with (inject_Z 10); rewrite <- Zle_Qle; exact Hn).
  assert (He : (0 < e)%Q) by apply pow2_pos.
  assert (HA1 : (1 <= N * d1)%Q) by (apply Qprod_ge1; assumption).
  assert (HA2 : (1 <= N * d2)%Q) by (apply Qprod_ge1; assumption).
  destruct (fl64_rel _ HA1) as [_ U1]. destruct (fl64_rel _ HA2) as [L2 _].
  fold e in U1, L2.
  assert (HND : (1 <= N * (d2 - d1 - e * (d1 + d2)))%Q) by nra.
  assert (Hgap : (fl64 (N * d1) + 1 <= fl64 (N * d2))%Q).
  { assert (Eq : (N * d2 - N * d2 * e - (N * d1 + N * d1 * e)
                  == N * (d2 - d1 - e * (d1 + d2)))%Q) by ring.
    lra. }
  assert (H0 : (0 <= fl64 (N * d1))%Q) by (apply fl64_nonneg'; lra).
  rewrite !trunc_nonneg_floor by lra.
  pose proof (Qfloor_le (fl64 (N * d1))). pose proof (Qlt_floor (fl64 (N * d2))).
  rewrite inject_Z_plus in *. change (inject_Z 1) with 1%Q in *. rewrite Zlt_Qlt. lra.
Qed.

Lemma scaled_lt_n n c :
  10 <= n ->
  Qle_bool (1 # 10) (fl64 c) = true ->
  Qltb (fl64 c * (1 + pow2 (-52))) 1 = true ->
  scaled n c < n.
Proof.
  intros Hn H1 H2. apply Qle_bool_iff in H1.
  unfold Qltb in H2. apply negb_true_iff, Qle_bool_false in H2.
  unfold scaled.
  set (N := inject_Z n) in *. set (d := fl64 c) in *. set (e := pow2 (-52)) in *.
  assert (HN : (10 <= N)%Q) by (unfold N; change 10%Q with (inject_Z 10); rewrite <- Zle_Qle; exact Hn).
  assert (HA : (1 <= N * d)%Q) by (apply Qprod_ge1; assumption).
  destruct (fl64_rel _ HA) as [_ U]. fold e in U.
  assert (HU : (N * d + N * d * e < N)%Q).
  { assert (Eq : (N * d + N * d * e == N * (d * (1 + e)))%Q) by ring. nra. }
  rewrite trunc_nonneg_floor by (apply fl64_nonneg'; lra).
  pose proof (Qfloor_le (fl64 (N * d))).
  rewrite Zlt_Qlt. fold N. lra.
Qed.

Lemma scaled_pos n c :
  10 <= n -> Qle_bool (1 # 10) (fl64 c) = true -> 0 < scaled n c.
Proof.
  intros Hn H1. apply Qle_bool_iff in H1. unfold scaled.
  set (N := inject_Z n). set (d := fl64 c) in *.
  assert (HN : (10 <= N)%Q) by (unfold N; change 10%Q with (inject_Z 10); rewrite <- Zle_Qle; exact Hn).
  assert (HA : (1 <= N * d)%Q) by (apply Qprod_ge1; assumption).
  assert (H1f : (1 <= fl64 (N * d))%Q).
  { apply Qle_trans with (fl64 1); [apply Qle_bool_iff; vm_compute; reflexivity |].
    unfold fl64, round_fmt.
    assert (Qle_bool 0 1 = true) as -> by reflexivity.
    assert (Qle_bool 0 (N * d) = true) as -> by (apply Qle_bool_iff; lra).
    apply round_pos_mono; [lia | exact HA]. }
  rewrite trunc_nonneg_floor by lra.
  pose proof (Qfloor_resp_le _ _ H1f) as Hf. change (Qfloor 1) with 1 in Hf. lia.
Qed.

Lemma freqBands_valid n : 10 <= n -> validateBands n (freqBands n) = None.
Proof.
  intro Hn.
  pose proof (scaled_pos n (1 # 10) Hn ltac:(vm_compute; reflexivity)).
  pose proof (scaled_gap n (1 # 10) (1 # 4) Hn
    ltac:(vm_compute; reflexivity) ltac:(vm_compute; reflexivity) ltac:(vm_compute; reflexivity)).
  pose proof (scaled_gap n (1 # 4) (2 # 5) Hn
    ltac:(vm_compute; reflexivity) ltac:(vm_compute; reflexivity) ltac:(vm_compute; reflexivity)).
  pose proof (scaled_gap n (2 # 5) (3 # 5) Hn
    ltac:(vm_compute; reflexivity) ltac:(vm_compute; reflexivity) ltac:(vm_compute; reflexivity)).
  pose proof (scaled_gap n (3 # 5) (4 # 5) Hn
    ltac:(vm_compute; reflexivity) ltac:(vm_compute; reflexivity) ltac:(vm_compute; reflexivity)).
  pose proof (scaled_lt_n n (4 # 5) Hn ltac:(vm_compute; reflexivity) ltac:(vm_compute; reflexivity)).
  unfold freqBands. cbn [validateBands].
  repeat match goal with
  | |- context [?a <=? ?b] => replace (a <=? b) with false by (symmetry; apply Z.leb_gt; lia)
  | |- context [?a <? ?b] => replace (a <? b) with false by (symmetry; apply Z.ltb_ge; lia)
  end.
  reflexivity.
Qed.

(** A spectrogram with a non-empty first row and at least ten
    frequency bins never fails on band validation: [extractPeaks] either
    succeeds or reports that no peak was found. *)
Lemma extractPeaks_ten_bins_bands_valid s e :
  hd [] s <> [] -> (10 <= List.length s)%nat -> Z.of_nat (List.length s) < 2 ^ 32 ->
  extractPeaks s = Failure e -> e = "No significant peaks found in spectrogram"%string.
Proof.
  intros Hr Hl Hu H. destruct s as [| row0 rest]; [simpl in Hl; lia |].
  destruct row0 as [| x xs]; [simpl in Hr; congruence |].
  unfold extractPeaks in H.
  assert (Hn : u32 (Z.of_nat (List.length ((x :: xs) :: rest)))
               = Z.of_nat (List.length ((x :: xs) :: rest))).
  { unfold u32. apply Z.mod_small. lia. }
  rewrite Hn, freqBands_valid in H by lia.
  destruct (collectPeaks _ _ _); congruence.
Qed.

Lemma extractPeaks_ten_bins_bands_valid_witness :
  exists e, extractPeaks (repeat [0%Q] 10) = Failure e /\
    e = "No significant peaks found in spectrogram"%string.
Proof.
  exists "No significant peaks found in spectrogram"%string.
  split; [vm_compute; reflexivity |].
  apply (extractPeaks_ten_bins_bands_valid (repeat [0%Q] 10)).
  - discriminate.
  - simpl. lia.
  - vm_compute. reflexivity.
  - vm_compute. reflexivity.
Defined.

End BandFacts.
